(** * PSP dashboard: the data pipeline of [PSPAnalyzer] (src/app.py)

    A shallow embedding of [PSPAnalyzer.detect_columns] and
    [PSPAnalyzer.process_data] (with its local [calculate_shares]), and the
    properties of the column resolver and of the metric processor.

    Modelling conventions.
    - A pandas scalar is a [cell]: a number or a string.  Numbers are
      [float]s: a finite value carried as an exact rational, or one of the
      IEEE special values [PInf], [NInf], [NaN].  The binary64 rounding of
      each arithmetic operation and the sign of zero are abstracted; the
      special values follow IEEE arithmetic as numpy implements it.  NaN
      is pandas' missing value (an empty spreadsheet cell).
    - A column label is a [cell] too: [df.columns.tolist()] holds strings
      for text headers and numbers for numeric header cells.
    - A [DataFrame] is its list of column labels and its rows, row-major.
    - [str.lower] is modelled on the ASCII letters.
    - Python exceptions are the [Raise] answers of the [res] monad;
      [st.error] followed by [return None] is the [SchemaFailure] outcome.
    - [groupby(...).apply(f)] follows pandas 2.x ([group_keys=True],
      [sort=True], [dropna=True]): rows with a missing key are left out,
      groups are visited in ascending key order, each keeps its rows in
      input order, and the answers are concatenated. *)

From Stdlib Require Import Bool Arith ZArith QArith Qround Qabs Lia Lqa List
  Ascii String Permutation Sorted OrderedTypeEx.
Import ListNotations.

Open Scope string_scope.
Open Scope Q_scope.
Open Scope list_scope.

(** ** Strings: [str.lower] and the [in] operator on strings *)

Definition lower_ascii (c : ascii) : ascii :=
  let n := nat_of_ascii c in
  if (65 <=? n)%nat && (n <=? 90)%nat then ascii_of_nat (n + 32) else c.

Fixpoint lower (s : string) : string :=
  match s with
  | EmptyString => EmptyString
  | String c s' => String (lower_ascii c) (lower s')
  end.

(** [contains needle hay] is Python's [needle in hay] on strings. *)
Fixpoint contains (needle hay : string) : bool :=
  String.prefix needle hay ||
  match hay with
  | EmptyString => false
  | String _ hay' => contains needle hay'
  end.

(** ** Numbers *)

Inductive float : Type :=
| Fin (q : Q)
| PInf
| NInf
| NaN.

Definition fzero : float := Fin 0.
Definition hundred : float := Fin 100.

(** Equality of numbers as values ([Fin] up to [Qeq]); NaN is kept equal to
    itself here: this is the comparison of the model, not Python's [==]. *)
Definition feqb (x y : float) : bool :=
  match x, y with
  | Fin a, Fin b => Qeq_bool a b
  | PInf, PInf | NInf, NInf | NaN, NaN => true
  | _, _ => false
  end.


Definition isna (x : float) : bool :=
  match x with NaN => true | _ => false end.

Definition Qsign_float (q : Q) (pos neg zero : float) : float :=
  match Qcompare q 0 with
  | Gt => pos
  | Lt => neg
  | Eq => zero
  end.

Definition fadd (x y : float) : float :=
  match x, y with
  | NaN, _ | _, NaN => NaN
  | PInf, NInf | NInf, PInf => NaN
  | PInf, _ | _, PInf => PInf
  | NInf, _ | _, NInf => NInf
  | Fin a, Fin b => Fin (Qred (a + b))
  end.

Definition fmul (x y : float) : float :=
  match x, y with
  | NaN, _ | _, NaN => NaN
  | Fin a, Fin b => Fin (Qred (a * b))
  | PInf, Fin b | Fin b, PInf => Qsign_float b PInf NInf NaN
  | NInf, Fin b | Fin b, NInf => Qsign_float b NInf PInf NaN
  | PInf, PInf | NInf, NInf => PInf
  | PInf, NInf | NInf, PInf => NaN
  end.

(** numpy's true division: a finite nonzero value over zero is an infinity,
    zero over zero and infinity over infinity are NaN. *)
Definition fdiv (x y : float) : float :=
  match x, y with
  | NaN, _ | _, NaN => NaN
  | Fin a, Fin b =>
      if Qeq_bool b 0 then Qsign_float a PInf NInf NaN
      else Fin (Qred (a / b))
  | Fin _, PInf | Fin _, NInf => Fin 0
  | PInf, Fin b => if Qle_bool 0 b then PInf else NInf
  | NInf, Fin b => if Qle_bool 0 b then NInf else PInf
  | PInf, PInf | PInf, NInf | NInf, PInf | NInf, NInf => NaN
  end.

(** [numpy.rint]: the nearest integer, ties to the even one. *)
Definition rint (q : Q) : Z :=
  let f := Qfloor q in
  match Qcompare (q - inject_Z f) (1 # 2) with
  | Lt => f
  | Gt => (f + 1)%Z
  | Eq => if Z.even f then f else (f + 1)%Z
  end.

(** [Series.round(2)]: scale by 100, [rint], scale back. *)
Definition round2 (q : Q) : Q := Qred (inject_Z (rint (q * 100)) / 100).

Definition fround2 (x : float) : float :=
  match x with
  | Fin q => Fin (round2 q)
  | _ => x
  end.

(** [Series.replace([np.inf, -np.inf], 0)] on one value. *)
Definition replace_inf (x : float) : float :=
  match x with
  | PInf | NInf => Fin 0
  | _ => x
  end.

(** [Series.fillna(0)] on one value. *)
Definition fillna0 (x : float) : float :=
  match x with
  | NaN => Fin 0
  | _ => x
  end.

(** [x > 0] on a scalar: false on NaN. *)
Definition fgt0 (x : float) : bool :=
  match x with
  | Fin q => negb (Qle_bool q 0)
  | PInf => true
  | NInf | NaN => false
  end.

(** [Series.sum()]: NaN entries are skipped ([skipna=True]). *)
Definition fsum (xs : list float) : float :=
  fold_left (fun acc x => if isna x then acc else fadd acc x) xs (Fin 0).

(** ** Cells, labels and frames *)

Inductive cell : Type :=
| CNum (x : float)
| CStr (s : string).

Definition label : Type := cell.

(** Python's [==] between two scalars, as [list.__contains__], the dict
    lookups and pandas' label lookups use it: NaN equals nothing. *)
Definition cell_eqb (a b : cell) : bool :=
  match a, b with
  | CStr s, CStr t => String.eqb s t
  | CNum NaN, CNum _ | CNum _, CNum NaN => false
  | CNum x, CNum y => feqb x y
  | _, _ => false
  end.

Definition cell_isna (c : cell) : bool :=
  match c with
  | CNum NaN => true
  | _ => false
  end.

Record DataFrame : Type := mkDF {
  columns : list label;
  data : list (list cell)
}.

(** ** Exceptions and outcomes *)

Inductive exn : Type :=
| AttributeError
| KeyError (k : string)
| TypeError
| ValueError.

Inductive res (A : Type) : Type :=
| Ok (a : A)
| Raise (e : exn).
Arguments Ok {A} a.
Arguments Raise {A} e.

Definition bind {A B : Type} (m : res A) (k : A -> res B) : res B :=
  match m with
  | Ok a => k a
  | Raise e => Raise e
  end.

Notation "x <- m ;; k" := (bind m (fun x => k))
  (at level 61, m at next level, right associativity).

(** ** The column resolver: [detect_columns] *)

Definition column_mapping : list (string * list string) :=
  [ ("country", ["country"; "Country"; "COUNTRY"; "market"; "Market"; "MARKET"]);
    ("psp", ["psp"; "PSP"; "payment service provider"; "Payment Provider";
             "provider"; "Provider"]);
    ("week", ["week"; "Week"; "WEEK"; "date"; "Date"; "period"; "Period"]);
    ("press_buy", ["press buy count"; "press_buy_count"; "PressBuyCount";
                   "press buy"; "buys"; "Buys"]);
    ("converted", ["converted count"; "converted_count"; "ConvertedCount";
                   "converted"; "conversions"; "Conversions"]);
    ("payment_option", ["last selected payment option"; "payment option";
                        "payment method"]) ].

(** [possible_name in available_columns] *)
Definition in_columns (possible_name : string) (available : list label) : bool :=
  existsb (cell_eqb (CStr possible_name)) available.

(** The inner [for col in available_columns] loop: the first column that
    contains the candidate or is contained in it, case ignored.  A label
    that is no string has no [lower] method. *)
Fixpoint fuzzy_match (possible_name : string) (available : list label)
  : res (option label) :=
  match available with
  | [] => Ok None
  | col :: rest =>
      match col with
      | CStr c =>
          if contains (lower possible_name) (lower c)
             || contains (lower c) (lower possible_name)
          then Ok (Some col)
          else fuzzy_match possible_name rest
      | CNum _ => Raise AttributeError
      end
  end.

(** The [for possible_name in possible_names] loop for one target. *)
Fixpoint resolve (possible_names : list string) (available : list label)
  : res (option label) :=
  match possible_names with
  | [] => Ok None
  | possible_name :: rest =>
      if in_columns possible_name available then Ok (Some (CStr possible_name))
      else
        found <- fuzzy_match possible_name available ;;
        match found with
        | Some col => Ok (Some col)
        | None => resolve rest available
        end
  end.

(** The dict [detected_columns], in insertion order. *)
Definition detected := list (string * label).

Fixpoint detect_loop (mapping : list (string * list string))
  (available : list label) (acc : detected) : res detected :=
  match mapping with
  | [] => Ok acc
  | (target_col, possible_names) :: rest =>
      found <- resolve possible_names available ;;
      match found with
      | Some col => detect_loop rest available (acc ++ [(target_col, col)])
      | None => detect_loop rest available acc
      end
  end.

Definition detect_columns (df : DataFrame) : res detected :=
  detect_loop column_mapping (columns df) [].

(** [target in detected_columns] and [detected_columns[target]] *)
Fixpoint lookup (target : string) (d : detected) : option label :=
  match d with
  | [] => None
  | (k, v) :: rest => if String.eqb k target then Some v else lookup target rest
  end.

Definition bound (target : string) (d : detected) : bool :=
  match lookup target d with Some _ => true | None => false end.

(** ** Frames: selecting, assigning and renaming columns *)

Definition map2 {A B C : Type} (f : A -> B -> C) (xs : list A) (ys : list B)
  : list C :=
  map (fun p => f (fst p) (snd p)) (combine xs ys).

Definition nan_cell : cell := CNum NaN.

(** The positions of the columns labelled [name]. *)
Fixpoint positions_from (i : nat) (name : string) (cols : list label)
  : list nat :=
  match cols with
  | [] => []
  | c :: rest =>
      if cell_eqb (CStr name) c then i :: positions_from (S i) name rest
      else positions_from (S i) name rest
  end.

Definition positions (name : string) (cols : list label) : list nat :=
  positions_from 0 name cols.

Definition column_at (i : nat) (rows : list (list cell)) : list cell :=
  map (fun row => nth i row nan_cell) rows.

(** [df[name]] where a Series is expected: a missing label is a KeyError;
    a label carried by several columns selects a frame, which
    [pd.to_numeric] and the arithmetic on Series reject. *)
Definition series (df : DataFrame) (name : string) : res (list cell) :=
  match positions name (columns df) with
  | [] => Raise (KeyError name)
  | [i] => Ok (column_at i (data df))
  | _ => Raise TypeError
  end.

(** Arithmetic on a Series needs numbers in every cell. *)
Fixpoint floats_of (cells : list cell) : res (list float) :=
  match cells with
  | [] => Ok []
  | CNum x :: rest => xs <- floats_of rest ;; Ok (x :: xs)
  | CStr _ :: _ => Raise TypeError
  end.

Definition num_series (df : DataFrame) (name : string) : res (list float) :=
  cells <- series df name ;; floats_of cells.

(** One row of [df[name] = values]: every column labelled [name] takes [v]. *)
Fixpoint assign_row (cols : list label) (name : string) (v : cell)
  (row : list cell) : list cell :=
  match cols, row with
  | c :: cs, x :: xs =>
      (if cell_eqb (CStr name) c then v else x) :: assign_row cs name v xs
  | _, _ => row
  end.

(** [df[name] = values]: overwrite the column when the label exists, append
    a new last column otherwise. *)
Definition setitem (df : DataFrame) (name : string) (values : list cell)
  : DataFrame :=
  if in_columns name (columns df)
  then mkDF (columns df) (map2 (assign_row (columns df) name) values (data df))
  else mkDF (columns df ++ [CStr name])
            (map2 (fun v row => row ++ [v]) values (data df)).

(** The dict comprehension [{v: k for k, v in detected_columns.items()}]:
    a later item with the same key overwrites the earlier one. *)
Fixpoint dict_set (k : label) (v : string) (d : list (label * string))
  : list (label * string) :=
  match d with
  | [] => [(k, v)]
  | (k', v') :: rest =>
      if cell_eqb k' k then (k', v) :: rest else (k', v') :: dict_set k v rest
  end.

Fixpoint dict_get (k : label) (d : list (label * string)) : option string :=
  match d with
  | [] => None
  | (k', v) :: rest => if cell_eqb k' k then Some v else dict_get k rest
  end.

Definition invert (d : detected) : list (label * string) :=
  fold_left (fun acc kv => dict_set (snd kv) (fst kv) acc) d [].

(** [df.rename(columns=mapper)] *)
Definition rename (df : DataFrame) (mapper : list (label * string))
  : DataFrame :=
  mkDF (map (fun c => match dict_get c mapper with
                      | Some k => CStr k
                      | None => c
                      end) (columns df))
       (data df).

(** ** Group keys and their order *)

Definition key : Type := (cell * cell)%type.

Definition key_isna (k : key) : bool := cell_isna (fst k) || cell_isna (snd k).

Definition key_eqb (k1 k2 : key) : bool :=
  cell_eqb (fst k1) (fst k2) && cell_eqb (snd k1) (snd k2).

(** The order of the sorted unique values of a key column: numbers by
    value, strings by code point, numbers before strings. *)
Definition fleb (x y : float) : bool :=
  match x, y with
  | NInf, _ => true
  | _, PInf => true
  | Fin a, Fin b => Qle_bool a b
  | _, _ => false
  end.

Definition cell_leb (a b : cell) : bool :=
  match a, b with
  | CNum x, CNum y => fleb x y
  | CNum _, CStr _ => true
  | CStr _, CNum _ => false
  | CStr s, CStr t => String.leb s t
  end.

Definition key_leb (k1 k2 : key) : bool :=
  if cell_eqb (fst k1) (fst k2) then cell_leb (snd k1) (snd k2)
  else cell_leb (fst k1) (fst k2).

Fixpoint insert_key (k : key) (ks : list key) : list key :=
  match ks with
  | [] => [k]
  | k' :: rest => if key_leb k k' then k :: ks else k' :: insert_key k rest
  end.

Fixpoint sort_keys (ks : list key) : list key :=
  match ks with
  | [] => []
  | k :: rest => insert_key k (sort_keys rest)
  end.

Fixpoint unique_keys (ks : list key) : list key :=
  match ks with
  | [] => []
  | k :: rest => k :: filter (fun k' => negb (key_eqb k k')) (unique_keys rest)
  end.

Definition row_key (ic iw : nat) (row : list cell) : key :=
  (nth ic row nan_cell, nth iw row nan_cell).

(** The keys of the groups, in the order [groupby] visits them. *)
Definition group_keys (ic iw : nat) (rows : list (list cell)) : list key :=
  sort_keys
    (unique_keys (filter (fun k => negb (key_isna k)) (map (row_key ic iw) rows))).

Definition group_rows (ic iw : nat) (rows : list (list cell)) (k : key)
  : list (list cell) :=
  filter (fun row => key_eqb (row_key ic iw row) k) rows.

(** A grouping label must select exactly one column. *)
Definition grouper (df : DataFrame) (name : string) : res nat :=
  match positions name (columns df) with
  | [] => Raise (KeyError name)
  | [i] => Ok i
  | _ => Raise ValueError
  end.

Fixpoint mapM {A B : Type} (f : A -> res B) (xs : list A) : res (list B) :=
  match xs with
  | [] => Ok []
  | x :: rest => y <- f x ;; ys <- mapM f rest ;; Ok (y :: ys)
  end.

(** [pd.concat] of the frames the groups return. *)
Definition concat_frames (default_columns : list label) (parts : list DataFrame)
  : DataFrame :=
  match parts with
  | [] => mkDF default_columns []
  | first :: _ => mkDF (columns first) (flat_map data parts)
  end.

(** [df.groupby([by1, by2]).apply(f).reset_index(drop=True)] *)
Definition groupby_apply (df : DataFrame) (by1 by2 : string)
  (f : DataFrame -> res DataFrame) : res DataFrame :=
  ic <- grouper df by1 ;;
  iw <- grouper df by2 ;;
  parts <- mapM (fun k => f (mkDF (columns df) (group_rows ic iw (data df) k)))
                (group_keys ic iw (data df)) ;;
  Ok (concat_frames (columns df) parts).

(** ** The metric processor: [process_data] *)

Definition share (total : float) (x : float) : cell :=
  CNum (fround2 (fmul (fdiv x total) hundred)).

(** The local function [calculate_shares] of [process_data]. *)
Definition calculate_shares (group : DataFrame) : res DataFrame :=
  press_buy <- num_series group "press_buy" ;;
  converted <- num_series group "converted" ;;
  let total_press_buy := fsum press_buy in
  let total_converted := fsum converted in
  press_buy <- num_series group "press_buy" ;;
  let group :=
    setitem group "press_buy_share"
      (if fgt0 total_press_buy then map (share total_press_buy) press_buy
       else map (fun _ => CNum (Fin 0)) press_buy) in
  converted <- num_series group "converted" ;;
  let group :=
    setitem group "converted_share"
      (if fgt0 total_converted then map (share total_converted) converted
       else map (fun _ => CNum (Fin 0)) converted) in
  Ok group.

Definition conversion_rate (converted press_buy : float) : float :=
  replace_inf (fround2 (fmul (fdiv converted press_buy) hundred)).

Definition required : list string :=
  ["country"; "psp"; "week"; "press_buy"; "converted"].

Definition schema_message : string :=
  "❌ 无法识别必要的数据列，请检查文件格式".

Inductive outcome : Type :=
| Enriched (df : DataFrame)
| SchemaFailure (message : string)
| Raised (e : exn).

Section Pipeline.

(** How [pd.to_numeric] reads a string cell: [None] when the text is no
    number.  The grammar is the library's. *)
Variable str_to_float : string -> option float.

(** [pd.to_numeric(_, errors='coerce')] on one cell. *)
Definition to_numeric (c : cell) : float :=
  match c with
  | CNum x => x
  | CStr s => match str_to_float s with
              | Some x => x
              | None => NaN
              end
  end.

(** [pd.to_numeric(_, errors='coerce').fillna(0)] on one cell. *)
Definition coerce (c : cell) : float := fillna0 (to_numeric c).

Definition coerce_column (df : DataFrame) (col : string) : res DataFrame :=
  cells <- series df col ;;
  Ok (setitem df col (map (fun c => CNum (coerce c)) cells)).

(** Lines 104-122: coercion, conversion rate, shares per group. *)
Definition compute_metrics (df_processed : DataFrame) : res DataFrame :=
  df_processed <- coerce_column df_processed "press_buy" ;;
  df_processed <- coerce_column df_processed "converted" ;;
  converted <- num_series df_processed "converted" ;;
  press_buy <- num_series df_processed "press_buy" ;;
  let df_processed :=
    setitem df_processed "conversion_rate"
      (map2 (fun c p => CNum (conversion_rate c p)) converted press_buy) in
  groupby_apply df_processed "country" "week" calculate_shares.

Definition process_data (df : DataFrame) : outcome :=
  match detect_columns df with
  | Raise e => Raised e
  | Ok detected_columns =>
      if negb (forallb (fun col => bound col detected_columns) required)
      then SchemaFailure schema_message
      else
        let df_processed := rename df (invert detected_columns) in
        match compute_metrics df_processed with
        | Ok enriched => Enriched enriched
        | Raise e => Raised e
        end
  end.

End Pipeline.

(** A reader of plain decimal integers, to run the pipeline on text cells. *)
Fixpoint digits_value (s : string) (acc : Z) : option Z :=
  match s with
  | EmptyString => Some acc
  | String c rest =>
      let n := nat_of_ascii c in
      if (48 <=? n)%nat && (n <=? 57)%nat
      then digits_value rest (10 * acc + Z.of_nat (n - 48))%Z
      else None
  end.

Definition read_integer (s : string) : option float :=
  match s with
  | EmptyString => None
  | String "-"%char (String c rest) =>
      option_map (fun z => Fin (inject_Z (- z))) (digits_value (String c rest) 0%Z)
  | _ => option_map (fun z => Fin (inject_Z z)) (digits_value s 0%Z)
  end.

(** ** Running the pipeline *)

Definition N (z : Z) : cell := CNum (Fin (inject_Z z)).
Definition S_ (s : string) : cell := CStr s.

Definition canonical_columns : list label :=
  [CStr "country"; CStr "psp"; CStr "week"; CStr "press_buy"; CStr "converted"].

Definition scenario_two_psps : DataFrame :=
  mkDF canonical_columns
    [ [S_ "US"; S_ "PayPal"; S_ "W1"; N 100; N 20];
      [S_ "US"; S_ "Stripe"; S_ "W1"; N 50; N 10] ].

(** ** Header lists of text labels *)

Definition is_text (c : label) : bool :=
  match c with CStr _ => true | CNum _ => false end.

Definition all_text (cols : list label) : bool := forallb is_text cols.

(** ** Tables used below *)

Definition text_headers : DataFrame :=
  mkDF [CStr "Country"; CStr "PSP"; CStr "Week"; CStr "Buys"; CStr "Conversions"] [].

Definition synonym_headers : DataFrame :=
  mkDF [CStr "market"; CStr "provider"; CStr "date"; CStr "buys";
        CStr "conversions"] [].

Definition numeric_header : DataFrame := mkDF [CNum (Fin 2024)] [].

Definition shadowed_exact_header : DataFrame :=
  mkDF [CStr "country_code"; CStr "Country"] [].

Definition no_country_header : DataFrame :=
  mkDF [CStr "psp"; CStr "week"; CStr "press_buy"; CStr "converted"]
       [ [S_ "PayPal"; S_ "W1"; N 100; N 20] ].

Definition shared_count_header : DataFrame :=
  mkDF [CStr "Country"; CStr "PSP"; CStr "Week"; CStr "count"]
       [ [S_ "US"; S_ "PayPal"; S_ "W1"; N 100] ].

Definition zero_over_zero : DataFrame :=
  mkDF canonical_columns [ [S_ "US"; S_ "PayPal"; S_ "W1"; N 0; N 0] ].

Definition zero_press_buy : DataFrame :=
  mkDF canonical_columns [ [S_ "US"; S_ "PayPal"; S_ "W1"; N 0; N 5] ].

(** The candidate names of a canonical field. *)
Fixpoint candidates_in (mapping : list (string * list string)) (field : string)
  : list string :=
  match mapping with
  | [] => []
  | (target, names) :: rest =>
      if String.eqb target field then names else candidates_in rest field
  end.

Definition candidates (field : string) : list string :=
  candidates_in column_mapping field.

(** Whether the resolver binds [field] on the headers of [df]. *)
Definition resolved (df : DataFrame) (field : string) : bool :=
  match detect_columns df with
  | Ok d => bound field d
  | Raise _ => false
  end.

(** Every row has one cell per column, as in any pandas frame. *)
Definition rectangular (df : DataFrame) : bool :=
  forallb (fun row => (List.length row =? List.length (columns df))%nat) (data df).


(** ** Reading the rows of a frame by column name *)

Definition num_of (c : cell) : float :=
  match c with CNum x => x | CStr _ => NaN end.

Definition num_at (i : nat) (row : list cell) : float :=
  num_of (nth i row nan_cell).

Definition position (name : string) (cols : list label) : nat :=
  hd 0%nat (positions name cols).

Definition cell_of (df : DataFrame) (name : string) (row : list cell) : cell :=
  nth (position name (columns df)) row nan_cell.

Definition value_of (df : DataFrame) (name : string) (row : list cell)
  : float :=
  num_of (cell_of df name row).

(** The (country, week) key of a row and the rows of a group. *)
Definition key_of (df : DataFrame) (row : list cell) : key :=
  (cell_of df "country" row, cell_of df "week" row).

Definition group_of (df : DataFrame) (k : key) : list (list cell) :=
  filter (fun row => key_eqb (key_of df row) k) (data df).

(** The share column of one group, as one function of the group total. *)
Definition share_cell (total x : float) : cell :=
  if fgt0 total then share total x else CNum (Fin 0).

(** ** The pipeline row by row

    What [compute_metrics] does to the rows of a frame whose columns
    [country], [week], [press_buy] and [converted] sit at the positions
    [ic], [iw], [ip] and [iv]. *)

Section RowByRow.

Variable str_to_float : string -> option float.
Variable cols : list label.
Variables ic iw ip iv : nat.

Definition coerced_row (row : list cell) : list cell :=
  assign_row cols "converted"
    (CNum (coerce str_to_float (nth iv row nan_cell)))
    (assign_row cols "press_buy"
       (CNum (coerce str_to_float (nth ip row nan_cell))) row).

Definition rated_row (row : list cell) : list cell :=
  coerced_row row ++
  [CNum (conversion_rate (coerce str_to_float (nth iv row nan_cell))
                         (coerce str_to_float (nth ip row nan_cell)))].

Definition with_shares (group : list (list cell)) : list (list cell) :=
  map (fun row =>
         (row ++ [share_cell (fsum (map (num_at ip) group)) (num_at ip row)])
         ++ [share_cell (fsum (map (num_at iv) group)) (num_at iv row)])
      group.

Definition enriched_rows (rows : list (list cell)) : list (list cell) :=
  flat_map (fun k => with_shares (group_rows ic iw (map rated_row rows) k))
           (group_keys ic iw (map rated_row rows)).

End RowByRow.

(** A frame ready for the metrics: one column for each of the four names
    the processor reads, none yet for the three it adds. *)
Definition ready (df : DataFrame) (ic iw ip iv : nat) : Prop :=
  rectangular df = true /\
  positions "country" (columns df) = [ic] /\
  positions "week" (columns df) = [iw] /\
  positions "press_buy" (columns df) = [ip] /\
  positions "converted" (columns df) = [iv] /\
  in_columns "conversion_rate" (columns df) = false /\
  in_columns "press_buy_share" (columns df) = false /\
  in_columns "converted_share" (columns df) = false.

Definition enriched_columns (cols : list label) : list label :=
  ((cols ++ [CStr "conversion_rate"]) ++ [CStr "press_buy_share"])
  ++ [CStr "converted_share"].

(** A canonical table: the canonical header, with or without the optional
    [payment_option] column, over rows of that width. *)
Definition canonical (df : DataFrame) : Prop :=
  rectangular df = true /\
  (columns df = canonical_columns \/
   columns df = canonical_columns ++ [CStr "payment_option"]).

(** Lists of keys no two of which are equal. *)
Definition distinct_keys (ks : list key) : Prop :=
  ForallOrdPairs (fun a b => key_eqb a b = false) ks.








(** Two rows of one country, the later week first. *)
Definition later_week_first : DataFrame :=
  mkDF canonical_columns
    [ [S_ "US"; S_ "PayPal"; S_ "W2"; N 10; N 1];
      [S_ "US"; S_ "PayPal"; S_ "W1"; N 20; N 2] ].

(** ** The filters of [main] (src/app.py, lines 239-272) *)

(** Equality as [Series.isin] and [Series.unique] take it: two missing
    values count as the same value. *)
Definition same_value (a b : cell) : bool :=
  cell_eqb a b || (cell_isna a && cell_isna b).

(** [Series.isin(values)] on one cell. *)
Definition isin (values : list cell) (c : cell) : bool :=
  existsb (same_value c) values.

(** [Series.unique().tolist()]: the values in the order they first occur. *)
Fixpoint unique_from (seen : list cell) (cells : list cell) : list cell :=
  match cells with
  | [] => []
  | c :: rest =>
      if isin seen c then unique_from seen rest
      else c :: unique_from (c :: seen) rest
  end.

Definition unique (cells : list cell) : list cell := unique_from [] cells.

(** [df[mask]] with a boolean Series. *)
Definition boolean_index (df : DataFrame) (mask : list bool) : DataFrame :=
  mkDF (columns df)
       (map snd (filter fst (combine mask (data df)))).

(** Lines 263-272.  The selections are the lists the three multiselect
    widgets return.  [series] stands for [df[name]]; the frames this code
    receives carry each of the labels it reads at most once. *)
Definition apply_filters (processed_data : DataFrame)
  (selected_countries selected_psps selected_payment_options : list cell)
  : res DataFrame :=
  country <- series processed_data "country" ;;
  psp <- series processed_data "psp" ;;
  let filtered_data :=
    boolean_index processed_data
      (map2 andb (map (isin selected_countries) country)
                 (map (isin selected_psps) psp)) in
  match selected_payment_options with
  | _ :: _ =>
      if in_columns "payment_option" (columns filtered_data)
      then
        option <- series filtered_data "payment_option" ;;
        Ok (boolean_index filtered_data
              (map (fun c => isin selected_payment_options c || cell_isna c)
                   option))
      else Ok filtered_data
  | [] => Ok filtered_data
  end.

(** ** [create_chart] (src/app.py, lines 127-171) *)

Inductive trace_kind : Type := Scatter | Bar.

Record trace : Type := mkTrace {
  kind : trace_kind;
  x : list cell;
  y : list cell;
  name : string;
  color : string
}.

Record figure : Type := mkFigure {
  traces : list trace;
  title : string;
  xaxis_title : string;
  yaxis_title : string;
  height : nat;
  hovermode : string
}.

Record metric : Type := mkMetric {
  metric_column : string;
  metric_title : string;
  metric_yaxis_title : string;
  metric_format : string;
  metric_chart_type : string
}.


(** [df[df[name] == value]] *)
Definition select_equal (df : DataFrame) (name : string) (value : cell)
  : res DataFrame :=
  cells <- series df name ;;
  Ok (boolean_index df (map (fun c => cell_eqb c value) cells)).

Section Chart.

(** The palette [px.colors.qualitative.Set3] and Python's [str] on a
    number, both of the libraries. *)
Variable colors : list string.
Variable str_of_float : float -> string.

Definition str_of_cell (c : cell) : string :=
  match c with
  | CStr s => s
  | CNum v => str_of_float v
  end.

(** [colors[i % len(colors)]]; the modulo by zero of an empty palette is
    Python's ZeroDivisionError, carried by [ValueError] here. *)
Definition pick_color (i : nat) : res string :=
  match colors with
  | [] => Raise ValueError
  | first :: _ => Ok (nth (i mod List.length colors) colors first)
  end.

(** The body of the inner loop for one PSP and one country. *)
Definition chart_pair (chart_data : DataFrame) (i : nat) (psp country : cell)
  (metric_config : metric) (chart_type : string) (fig : list trace)
  : res (list trace) :=
  country_data <- select_equal chart_data "country" country ;;
  psp_data <- select_equal country_data "psp" psp ;;
  match data psp_data with
  | [] => Ok fig
  | _ :: _ =>
      color <- pick_color i ;;
      let name :=
        (str_of_cell psp ++ " (" ++ str_of_cell country ++ ")")%string in
      if String.eqb chart_type "line" then
        xs <- series psp_data "week" ;;
        ys <- series psp_data (metric_column metric_config) ;;
        Ok (fig ++ [mkTrace Scatter xs ys name color])
      else if String.eqb chart_type "bar" then
        xs <- series psp_data "week" ;;
        ys <- series psp_data (metric_column metric_config) ;;
        Ok (fig ++ [mkTrace Bar xs ys name color])
      else Ok fig
  end.

Fixpoint chart_countries (chart_data : DataFrame) (i : nat) (psp : cell)
  (countries : list cell) (metric_config : metric) (chart_type : string)
  (fig : list trace) : res (list trace) :=
  match countries with
  | [] => Ok fig
  | country :: rest =>
      fig <- chart_pair chart_data i psp country metric_config chart_type fig ;;
      chart_countries chart_data i psp rest metric_config chart_type fig
  end.

(** [for i, psp in enumerate(psps)], from the index [i]. *)
Fixpoint chart_psps (chart_data : DataFrame) (i : nat) (psps countries : list cell)
  (metric_config : metric) (chart_type : string) (fig : list trace)
  : res (list trace) :=
  match psps with
  | [] => Ok fig
  | psp :: rest =>
      fig <- chart_countries chart_data i psp countries metric_config chart_type
               fig ;;
      chart_psps chart_data (S i) rest countries metric_config chart_type fig
  end.

(** [plotly.graph_objects.Figure] has [update_yaxes] and no
    [update_yaxis]: the call of line 169 raises AttributeError. *)
Definition create_chart (chart_data : DataFrame) (countries psps : list cell)
  (metric_config : metric) (chart_type : string) : res figure :=
  fig <- chart_psps chart_data 0 psps countries metric_config chart_type [] ;;
  let fig := mkFigure fig (metric_title metric_config) "Week"
                      (metric_yaxis_title metric_config) 400 "x unified" in
  if String.eqb (metric_format metric_config) "percentage"
  then Raise AttributeError
  else Ok fig.


End Chart.

(** [px.colors.qualitative.Set3] *)
Definition Set3 : list string :=
  [ "rgb(141,211,199)"; "rgb(255,255,179)"; "rgb(190,186,218)";
    "rgb(251,128,114)"; "rgb(128,177,211)"; "rgb(253,180,98)";
    "rgb(179,222,105)"; "rgb(252,205,229)"; "rgb(217,217,217)";
    "rgb(188,128,189)"; "rgb(204,235,197)"; "rgb(255,237,111)" ].

(** What the three filters of [main] ask of one row. *)
Definition passes_filters (df : DataFrame)
  (selected_countries selected_psps selected_payment_options : list cell)
  (row : list cell) : bool :=
  isin selected_countries (cell_of df "country" row)
  && isin selected_psps (cell_of df "psp" row)
  && match selected_payment_options with
     | [] => true
     | _ :: _ =>
         if in_columns "payment_option" (columns df)
         then isin selected_payment_options (cell_of df "payment_option" row)
              || cell_isna (cell_of df "payment_option" row)
         else true
     end.

(** The default selections of the widgets: every country, every PSP, no
    payment option. *)
Definition default_countries (df : DataFrame) : list cell :=
  unique (map (cell_of df "country") (data df)).

Definition default_psps (df : DataFrame) : list cell :=
  unique (map (cell_of df "psp") (data df)).

Definition with_payment_options : DataFrame :=
  mkDF (canonical_columns ++ [CStr "payment_option"])
    [ [S_ "US"; S_ "PayPal"; S_ "W1"; N 100; N 20; S_ "card"];
      [S_ "US"; S_ "Stripe"; S_ "W1"; N 50; N 10; CNum NaN];
      [S_ "DE"; S_ "Stripe"; S_ "W1"; N 30; N 3; S_ "wallet"] ].

(** A trace as [create_chart] builds them: as many x values as y values,
    at least one, and a colour of the palette. *)
Definition good_trace (colors : list string) (t : trace) : Prop :=
  List.length (x t) = List.length (y t) /\ x t <> [] /\ In (color t) colors.

(** The enriched table of the two-PSP scenario. *)
Definition enriched_two_psps : DataFrame :=
  Eval vm_compute in
    match process_data read_integer scenario_two_psps with
    | Enriched out => out
    | _ => mkDF [] []
    end.

Definition press_buy_metric : metric :=
  mkMetric "press_buy" "Press Buy Count" "Press Buy Count" "number" "line".


(** A stand-in for Python's [str] on numbers, for tables of text keys. *)
Definition no_number_text (v : float) : string := "".

(** A canonical table with a row that has no country and one that has no
    week. *)
Definition missing_keys : DataFrame :=
  mkDF canonical_columns
    [ [S_ "US"; S_ "PayPal"; S_ "W1"; N 100; N 20];
      [CNum NaN; S_ "Stripe"; S_ "W1"; N 50; N 10];
      [S_ "DE"; S_ "Stripe"; CNum NaN; N 30; N 3] ].

Definition no_rows : DataFrame := mkDF canonical_columns [].

(** The test of the inner loop of [detect_columns] on a text header. *)
Definition header_matches (possible_name : string) (col : label) : bool :=
  match col with
  | CStr c => contains (lower possible_name) (lower c)
              || contains (lower c) (lower possible_name)
  | CNum _ => false
  end.

Definition substring_headers : DataFrame :=
  mkDF [CStr "Region"; CStr "Provider name"; CStr "provider"; CStr "Period";
        CStr "Buys"; CStr "Conversions"] [].

(** ** The launcher (src/run_python.py) *)

Definition required_packages : list string :=
  ["streamlit"; "pandas"; "plotly"; "openpyxl"; "xlrd"; "numpy"].

(** [package.replace('-', '_')] *)
Fixpoint replace_dash (s : string) : string :=
  match s with
  | EmptyString => EmptyString
  | String c rest =>
      String (if Ascii.eqb c "-"%char then "_"%char else c) (replace_dash rest)
  end.

(** What [__import__] does: it returns, raises ImportError, or raises
    something else. *)
Inductive import_result : Type :=
| Imported
| ImportError
| ImportCrashed.

(** What [subprocess.run] of the application does. *)
Inductive run_result : Type :=
| Completed
| KeyboardInterrupt
| RunFailed (message : string).

Inductive launcher_event : Type :=
| Printed (text : string)
| PipInstall (packages : list string)
| StreamlitRun.

Inductive launcher_status : Type :=
| Returned
| Uncaught.

Section Launcher.

Variable import_module : string -> import_result.
Variable pip_install : list string -> bool.
Variable run_streamlit : run_result.

(** The loop of [check_dependencies]: [None] when an import raises
    something that is no ImportError. *)
Fixpoint find_missing (packages : list string) (missing_packages : list string)
  : option (list string) :=
  match packages with
  | [] => Some missing_packages
  | package :: rest =>
      match import_module (replace_dash package) with
      | Imported => find_missing rest missing_packages
      | ImportError => find_missing rest (missing_packages ++ [package])
      | ImportCrashed => None
      end
  end.

Definition check_dependencies : list launcher_event * launcher_status :=
  match find_missing required_packages [] with
  | None => ([], Uncaught)
  | Some [] => ([], Returned)
  | Some (first :: others) =>
      let missing_packages := first :: others in
      let announce :=
        Printed ("📦 安装缺失的依赖包: "
                 ++ String.concat ", " missing_packages)%string in
      if pip_install missing_packages
      then ([announce; PipInstall missing_packages;
             Printed "✅ 依赖包安装完成"], Returned)
      else ([announce; PipInstall missing_packages], Uncaught)
  end.

Definition launcher_main : list launcher_event * launcher_status :=
  let start := [Printed "🚀 启动 Temu PSP Tracker Python 版本..."] in
  match check_dependencies with
  | (events, Uncaught) => (start ++ events, Uncaught)
  | (events, Returned) =>
      let banner :=
        [ Printed "🌐 正在启动 Web 应用...";
          Printed "📊 应用将在浏览器中打开: http://localhost:8501";
          Printed "📁 请准备好您的 Excel 文件 (rawdata/test2025.xlsx)";
          Printed "⏹️  按 Ctrl+C 停止应用";
          StreamlitRun ] in
      let after :=
        match run_streamlit with
        | Completed => []
        | KeyboardInterrupt =>
            [Printed (String (ascii_of_nat 10) "👋 应用已停止")]
        | RunFailed message =>
            [ Printed ("❌ 启动失败: " ++ message)%string;
              Printed "💡 请确保所有依赖包已正确安装" ]
        end in
      (start ++ events ++ banner ++ after, Returned)
  end.

End Launcher.

(** The required packages whose import raises ImportError. *)
Definition failing_imports (import_module : string -> import_result)
  : list string :=
  filter (fun p => match import_module (replace_dash p) with
                   | ImportError => true
                   | _ => false
                   end) required_packages.

Definition is_pip_install (e : launcher_event) : bool :=
  match e with PipInstall _ => true | _ => false end.

Definition is_streamlit_run (e : launcher_event) : bool :=
  match e with StreamlitRun => true | _ => false end.

(** An environment in which [plotly] and [xlrd] are not installed. *)
Definition two_missing (module : string) : import_result :=
  if String.eqb module "plotly" || String.eqb module "xlrd"
  then ImportError else Imported.

(** ** The summary of a country in [main] (src/app.py, lines 326-330) *)

(** [Series.mean()]: the mean of the values that are not missing, NaN
    when there is none. *)
Definition fmean (xs : list float) : float :=
  match filter (fun v => negb (isna v)) xs with
  | [] => NaN
  | first :: others =>
      fdiv (fsum (first :: others))
           (Fin (inject_Z (Z.of_nat (List.length (first :: others)))))
  end.

Record psp_stat : Type := mkStat {
  stat_psp : cell;
  stat_press_buy : float;
  stat_converted : float;
  stat_conversion_rate : float
}.

(** [country_data.groupby('psp').agg({'press_buy': 'sum', 'converted':
    'sum', 'conversion_rate': 'mean'}).reset_index()].  A grouping by one
    column is the grouping by that column taken twice.  The three
    aggregated columns hold numbers in every table [process_data]
    returns; [num_at] reads them. *)
Definition country_stats (country_data : DataFrame) : res (list psp_stat) :=
  ip <- grouper country_data "psp" ;;
  ib <- grouper country_data "press_buy" ;;
  iv <- grouper country_data "converted" ;;
  ir <- grouper country_data "conversion_rate" ;;
  Ok (map (fun k =>
             let rows := group_rows ip ip (data country_data) k in
             mkStat (fst k)
                    (fsum (map (num_at ib) rows))
                    (fsum (map (num_at iv) rows))
                    (fmean (map (num_at ir) rows)))
          (group_keys ip ip (data country_data))).

(** * Properties *)

(** ** The resolver *)

Lemma in_columns_In (p : string) (cols : list label) :
  in_columns p cols = true -> In (CStr p) cols.
Proof.
  unfold in_columns. rewrite existsb_exists.
  intros [c [Hin Heq]]. destruct c as [x|s]; simpl in Heq.
  - discriminate.
  - apply String.eqb_eq in Heq. subst s. exact Hin.
Qed.

Lemma In_in_columns (p : string) (cols : list label) :
  In (CStr p) cols -> in_columns p cols = true.
Proof.
  intros Hin. unfold in_columns. apply existsb_exists.
  exists (CStr p). split; [exact Hin | simpl; apply String.eqb_refl].
Qed.

Lemma fuzzy_match_In (p : string) (cols : list label) (col : label) :
  fuzzy_match p cols = Ok (Some col) -> In col cols.
Proof.
  induction cols as [|c rest IH]; simpl; [discriminate|].
  destruct c as [x|s]; [discriminate|].
  destruct (contains (lower p) (lower s) || contains (lower s) (lower p)).
  - intros H. injection H as <-. now left.
  - intros H. right. now apply IH.
Qed.

Lemma fuzzy_match_text (p : string) (cols : list label) :
  all_text cols = true -> exists r, fuzzy_match p cols = Ok r.
Proof.
  induction cols as [|c rest IH]; simpl; intros Ht.
  - now exists None.
  - apply andb_true_iff in Ht. destruct Ht as [Hc Hr].
    destruct c as [x|s]; [discriminate|].
    destruct (contains (lower p) (lower s) || contains (lower s) (lower p)).
    + now eexists.
    + now apply IH.
Qed.

Lemma resolve_In (names : list string) (cols : list label) (col : label) :
  resolve names cols = Ok (Some col) -> In col cols.
Proof.
  induction names as [|p rest IH]; simpl; [discriminate|].
  destruct (in_columns p cols) eqn:Hex.
  - intros H. injection H as <-. now apply in_columns_In.
  - destruct (fuzzy_match p cols) as [[c|]|e] eqn:Hf; simpl.
    + intros H. injection H as <-. eapply fuzzy_match_In; eassumption.
    + exact IH.
    + discriminate.
Qed.

Lemma resolve_text (names : list string) (cols : list label) :
  all_text cols = true -> exists r, resolve names cols = Ok r.
Proof.
  intros Ht. induction names as [|p rest IH]; simpl.
  - now exists None.
  - destruct (in_columns p cols); [now eexists|].
    destruct (fuzzy_match_text p cols Ht) as [[c|] ->]; simpl.
    + now eexists.
    + exact IH.
Qed.

(** What the loop over the targets builds: the keys are targets of the
    mapping, in its order, each one at most once, and every value is a
    header of the table. *)
Lemma detect_loop_text (mapping : list (string * list string))
  (cols : list label) (acc : detected) :
  all_text cols = true -> exists d, detect_loop mapping cols acc = Ok d.
Proof.
  intros Ht. revert acc.
  induction mapping as [|[t names] rest IH]; intros acc; simpl.
  - now exists acc.
  - destruct (resolve_text names cols Ht) as [[c|] ->]; simpl; apply IH.
Qed.

Lemma detect_loop_shape (mapping : list (string * list string))
  (cols : list label) (acc d : detected) :
  detect_loop mapping cols acc = Ok d ->
  exists new,
    d = acc ++ new /\
    (forall k v, In (k, v) new -> In k (map fst mapping) /\ In v cols) /\
    (NoDup (map fst mapping) -> NoDup (map fst new)).
Proof.
  revert acc d.
  induction mapping as [|[t names] rest IH]; intros acc d; simpl.
  - intros H. injection H as <-. exists []. rewrite app_nil_r.
    repeat split; try (intros; contradiction). intros _. constructor.
  - destruct (resolve names cols) as [[c|]|e] eqn:Hr; simpl; try discriminate.
    + intros H. apply IH in H. destruct H as [new [-> [Hin Hnd]]].
      exists ((t, c) :: new). rewrite <- app_assoc. simpl.
      split; [reflexivity|]. split.
      * intros k v [Heq|Hkv].
        -- injection Heq as <- <-. split; [now left|].
           eapply resolve_In; eassumption.
        -- destruct (Hin k v Hkv). split; [now right | assumption].
      * intros Hnodup. inversion Hnodup as [|? ? Hnotin Hrest]; subst.
        constructor; [|now apply Hnd].
        intros Hk. apply Hnotin. apply in_map_iff in Hk.
        destruct Hk as [[k v] [Hfst Hkv]]. simpl in Hfst. subst k.
        now destruct (Hin t v Hkv).
    + intros H. apply IH in H. destruct H as [new [-> [Hin Hnd]]].
      exists new. split; [reflexivity|]. split.
      * intros k v Hkv. destruct (Hin k v Hkv). split; [now right | assumption].
      * intros Hnodup. inversion Hnodup; subst. now apply Hnd.
Qed.

Lemma column_mapping_keys_NoDup : NoDup (map fst column_mapping).
Proof.
  simpl. repeat constructor; simpl; intuition discriminate.
Qed.

Lemma lookup_In (target : string) (d : detected) (v : label) :
  lookup target d = Some v -> In (target, v) d.
Proof.
  induction d as [|[k w] rest IH]; simpl; [discriminate|].
  destruct (String.eqb k target) eqn:Hk.
  - apply String.eqb_eq in Hk. subst k. intros H. injection H as <-. now left.
  - intros H. right. now apply IH.
Qed.

(** C10, as amended: on a header list of text labels [detect_columns]
    returns; in its answer every canonical field is a key at most once,
    every key is a canonical field, and every value is one of the given
    headers. *)
Theorem detect_columns_well_formed (df : DataFrame) :
  all_text (columns df) = true ->
  exists d,
    detect_columns df = Ok d /\
    NoDup (map fst d) /\
    (forall k v, In (k, v) d ->
       In k (map fst column_mapping) /\ In v (columns df)).
Proof.
  intros Ht. unfold detect_columns.
  destruct (detect_loop_text column_mapping (columns df) [] Ht) as [d Hd].
  exists d. split; [exact Hd|].
  apply detect_loop_shape in Hd. destruct Hd as [new [-> [Hin Hnd]]].
  simpl. split.
  - apply Hnd, column_mapping_keys_NoDup.
  - exact Hin.
Qed.

Lemma detect_columns_well_formed_witness :
  all_text (columns text_headers) = true /\
  exists d,
    detect_columns text_headers = Ok d /\
    NoDup (map fst d) /\
    (forall k v, In (k, v) d ->
       In k (map fst column_mapping) /\ In v (columns text_headers)).
Proof.
  split; [reflexivity|].
  apply (detect_columns_well_formed text_headers). reflexivity.
Defined.

(** C10 fails as stated: a header that is a number, as a numeric header
    cell of a spreadsheet gives, has no [lower] and the resolver raises. *)
Lemma detect_columns_raises_on_numeric_header :
  detect_columns numeric_header = Raise AttributeError.
Proof. reflexivity. Qed.

Lemma lookup_app (target : string) (d1 d2 : detected) :
  lookup target (d1 ++ d2) =
  match lookup target d1 with
  | Some v => Some v
  | None => lookup target d2
  end.
Proof.
  induction d1 as [|[k v] rest IH]; simpl; [reflexivity|].
  destruct (String.eqb k target); [reflexivity | exact IH].
Qed.

Lemma lookup_not_key (target : string) (d : detected) :
  ~ In target (map fst d) -> lookup target d = None.
Proof.
  induction d as [|[k v] rest IH]; simpl; [reflexivity|].
  intros Hn. destruct (String.eqb k target) eqn:Hk.
  - apply String.eqb_eq in Hk. exfalso. apply Hn. now left.
  - apply IH. intros Hin. apply Hn. now right.
Qed.

(** The binding of a target is the answer of [resolve] on its candidates. *)
Lemma detect_loop_lookup (mapping : list (string * list string))
  (cols : list label) (acc d : detected) (field : string)
  (names : list string) :
  detect_loop mapping cols acc = Ok d ->
  NoDup (map fst mapping) ->
  In (field, names) mapping ->
  lookup field acc = None ->
  exists r, resolve names cols = Ok r /\ lookup field d = r.
Proof.
  revert acc.
  induction mapping as [|[t ns] rest IH]; intros acc Hd Hnd Hin Hacc;
    [contradiction|].
  simpl in Hd. inversion Hnd as [|? ? Hnotin Hrest]; subst.
  destruct Hin as [Heq|Hin].
  - injection Heq as -> ->.
    destruct (resolve names cols) as [r|e] eqn:Hr; simpl in Hd; [|discriminate].
    exists r. split; [reflexivity|].
    assert (Hkeep : forall acc', detect_loop rest cols acc' = Ok d ->
                                 lookup field d = lookup field acc').
    { intros acc' H'. apply detect_loop_shape in H'.
      destruct H' as [new [-> [Hnew _]]]. rewrite lookup_app.
      destruct (lookup field acc'); [reflexivity|].
      apply lookup_not_key. intros Hk. apply Hnotin.
      apply in_map_iff in Hk. destruct Hk as [[k v] [Hf Hkv]].
      simpl in Hf. subst k. now destruct (Hnew field v Hkv). }
    destruct r as [c|].
    + rewrite (Hkeep _ Hd), lookup_app, Hacc. simpl.
      now rewrite String.eqb_refl.
    + now rewrite (Hkeep _ Hd).
  - assert (Hne : String.eqb t field = false).
    { apply String.eqb_neq. intros ->. apply Hnotin.
      apply in_map_iff. exists (field, names). now split. }
    destruct (resolve ns cols) as [[c|]|e] eqn:Hr; simpl in Hd;
      try discriminate.
    + apply (IH _ Hd Hrest Hin). rewrite lookup_app, Hacc. simpl.
      now rewrite Hne.
    + now apply (IH _ Hd Hrest Hin).
Qed.

Lemma resolve_exact_first (before after : list string) (c : string)
  (cols : list label) :
  in_columns c cols = true ->
  (forall p, In p before ->
     in_columns p cols = false /\ fuzzy_match p cols = Ok None) ->
  resolve (before ++ c :: after) cols = Ok (Some (CStr c)).
Proof.
  intros Hc. induction before as [|p rest IH]; intros Hbefore; simpl.
  - now rewrite Hc.
  - destruct (Hbefore p (or_introl eq_refl)) as [-> ->]. simpl.
    apply IH. intros q Hq. apply Hbefore. now right.
Qed.

(** C4, as amended: a header equal to a candidate binds the field to that
    header whenever no candidate of higher priority matches any header,
    exactly or as a case-insensitive substring. *)
Theorem exact_match_priority (df : DataFrame) (field : string)
  (before after : list string) (c : string) :
  all_text (columns df) = true ->
  In (field, before ++ c :: after) column_mapping ->
  in_columns c (columns df) = true ->
  (forall p, In p before ->
     in_columns p (columns df) = false /\
     fuzzy_match p (columns df) = Ok None) ->
  exists d, detect_columns df = Ok d /\ lookup field d = Some (CStr c).
Proof.
  intros Ht Hin Hc Hbefore.
  destruct (detect_loop_text column_mapping (columns df) [] Ht) as [d Hd].
  exists d. split; [exact Hd|].
  destruct (detect_loop_lookup _ _ _ _ _ _ Hd column_mapping_keys_NoDup Hin
              eq_refl) as [r [Hr Hl]].
  rewrite (resolve_exact_first before after c _ Hc Hbefore) in Hr.
  injection Hr as <-. exact Hl.
Qed.

Lemma exact_match_priority_witness :
  exists d, detect_columns synonym_headers = Ok d /\
            lookup "week" d = Some (CStr "date").
Proof.
  apply (exact_match_priority synonym_headers "week" ["week"; "Week"; "WEEK"]
           ["Date"; "period"; "Period"] "date").
  - reflexivity.
  - simpl. right. right. left. reflexivity.
  - reflexivity.
  - intros p [<-|[<-|[<-|[]]]]; split; reflexivity.
Defined.

(** C4 fails as stated: the header [Country] is a candidate of [country],
    letter for letter, and the field is bound to [country_code], which is
    no candidate, by the substring match of the earlier candidate. *)
Lemma fuzzy_match_shadows_exact_header :
  In "Country" (candidates "country") /\
  in_columns "Country" (columns shadowed_exact_header) = true /\
  detect_columns shadowed_exact_header = Ok [("country", CStr "country_code")] /\
  ~ In "country_code" (candidates "country").
Proof.
  split; [simpl; tauto|]. split; [reflexivity|]. split; [reflexivity|].
  simpl. intuition discriminate.
Qed.

(** ** The schema check *)

Lemma required_all_bound (d : detected) :
  forallb (fun col => bound col d) required = false <->
  exists f, In f required /\ bound f d = false.
Proof.
  split.
  - intros H. destruct (existsb (fun col => negb (bound col d)) required) eqn:He.
    + apply existsb_exists in He. destruct He as [f [Hin Hb]].
      exists f. split; [exact Hin|]. now destruct (bound f d).
    + exfalso. assert (Hall : forallb (fun col => bound col d) required = true).
      { apply forallb_forall. intros f Hin.
        destruct (bound f d) eqn:Hb; [reflexivity|].
        assert (Hex : existsb (fun col => negb (bound col d)) required = true).
        { apply existsb_exists. exists f. split; [exact Hin|]. now rewrite Hb. }
        congruence. }
      congruence.
  - intros [f [Hin Hb]].
    destruct (forallb (fun col => bound col d) required) eqn:Hall;
      [|reflexivity].
    rewrite forallb_forall in Hall. specialize (Hall f Hin). congruence.
Qed.

(** C5, as amended: when the resolver leaves a required field unbound,
    [process_data] reports the fixed message, which names none of the
    fields, and returns no table without computing any metric; when the
    required fields are bound it does not report a schema failure, whether
    [payment_option] is bound or not. *)
Theorem schema_failure (str_to_float : string -> option float)
  (df : DataFrame) (d : detected) :
  detect_columns df = Ok d ->
  ((exists f, In f required /\ bound f d = false) ->
     process_data str_to_float df = SchemaFailure schema_message) /\
  ((forall f, In f required -> bound f d = true) ->
     forall message, process_data str_to_float df <> SchemaFailure message) /\
  (forall f, In f ("payment_option" :: required) ->
     contains f schema_message = false).
Proof.
  intros Hd. unfold process_data. rewrite Hd. split; [|split].
  - intros Hex. apply required_all_bound in Hex. now rewrite Hex.
  - intros Hall message.
    assert (H : forallb (fun col => bound col d) required = true)
      by (apply forallb_forall; exact Hall).
    rewrite H. simpl.
    destruct (compute_metrics str_to_float (rename df (invert d)));
      discriminate.
  - intros f Hin. simpl in Hin.
    repeat (destruct Hin as [<-|Hin]; [vm_compute; reflexivity|]).
    contradiction.
Qed.

Lemma schema_failure_witness :
  detect_columns no_country_header =
    Ok [("psp", CStr "psp"); ("week", CStr "week");
        ("press_buy", CStr "press_buy"); ("converted", CStr "converted")] /\
  process_data read_integer no_country_header = SchemaFailure schema_message.
Proof.
  split; [reflexivity|].
  refine (proj1 (schema_failure read_integer no_country_header _ eq_refl) _).
  exists "country". split; [now left | reflexivity].
Defined.

(** C5 fails as stated: without any header for [country] the failure is
    reported, and its message does not name the field. *)
Lemma schema_message_names_no_field :
  resolved no_country_header "country" = false /\
  process_data read_integer no_country_header = SchemaFailure schema_message /\
  contains "country" schema_message = false.
Proof. repeat split; reflexivity. Qed.

(** C9: two required fields can be bound to one header; the check of the
    required fields passes, the inverted mapping keeps one name per header,
    the column [press_buy] does not exist after the renaming, and the
    coercion raises a KeyError. *)
Theorem mapping_not_injective :
  exists (df : DataFrame) (d : detected) (h : label),
    detect_columns df = Ok d /\
    lookup "press_buy" d = Some h /\
    lookup "converted" d = Some h /\
    forallb (fun col => bound col d) required = true /\
    dict_get h (invert d) = Some "converted" /\
    in_columns "press_buy" (columns (rename df (invert d))) = false /\
    forall str_to_float,
      process_data str_to_float df = Raised (KeyError "press_buy").
Proof.
  exists shared_count_header.
  exists [("country", CStr "Country"); ("psp", CStr "PSP");
          ("week", CStr "Week"); ("press_buy", CStr "count");
          ("converted", CStr "count")].
  exists (CStr "count").
  repeat split; reflexivity.
Qed.

(** ** Frames *)

Lemma positions_from_spec (k : nat) (name : string) (cols : list label)
  (i : nat) :
  In i (positions_from k name cols) ->
  (k <= i)%nat /\
  exists c, nth_error cols (i - k) = Some c /\ cell_eqb (CStr name) c = true.
Proof.
  revert k. induction cols as [|c rest IH]; intros k; cbn [positions_from];
    [intros []|].
  assert (Hrest : In i (positions_from (S k) name rest) ->
                  (k <= i)%nat /\
                  exists c0, nth_error (c :: rest) (i - k) = Some c0 /\
                             cell_eqb (CStr name) c0 = true).
  { intros H. apply IH in H. destruct H as [Hle [c0 [Hn He]]].
    split; [lia|]. exists c0. split; [|exact He].
    replace (i - k)%nat with (S (i - S k)) by lia. exact Hn. }
  destruct (cell_eqb (CStr name) c) eqn:Hc.
  - intros [<-|H]; [|now apply Hrest].
    split; [lia|]. exists c. rewrite Nat.sub_diag. now split.
  - exact Hrest.
Qed.

Lemma nth_assign_row (cols : list label) (name : string) (v : cell)
  (row : list cell) (i : nat) :
  List.length row = List.length cols ->
  nth i (assign_row cols name v row) nan_cell =
  match nth_error cols i with
  | Some c => if cell_eqb (CStr name) c then v else nth i row nan_cell
  | None => nth i row nan_cell
  end.
Proof.
  revert row i. induction cols as [|c rest IH]; intros row i Hlen.
  - destruct row; [|discriminate]. now destruct i.
  - destruct row as [|x xs]; [discriminate|]. simpl in Hlen.
    destruct i as [|i]; simpl.
    + reflexivity.
    + apply IH. lia.
Qed.

Lemma length_assign_row (cols : list label) (name : string) (v : cell)
  (row : list cell) :
  List.length (assign_row cols name v row) = List.length row.
Proof.
  revert row. induction cols as [|c rest IH]; intros [|x xs]; simpl;
    try reflexivity.
  now rewrite IH.
Qed.

Lemma map2_length {A B C : Type} (f : A -> B -> C) (xs : list A)
  (ys : list B) :
  List.length xs = List.length ys -> List.length (map2 f xs ys) = List.length ys.
Proof.
  intros H. unfold map2. rewrite length_map, length_combine. lia.
Qed.

Lemma map2_map_l {A B C D : Type} (f : A -> B -> C) (g : D -> A)
  (xs : list D) (ys : list B) :
  map2 f (map g xs) ys = map2 (fun x y => f (g x) y) xs ys.
Proof.
  unfold map2. revert ys. induction xs as [|x xs IH]; intros [|y ys]; simpl;
    try reflexivity.
  now rewrite IH.
Qed.

(** Pairing a column read off the rows with the rows themselves. *)
Lemma map2_column_at {C : Type} (f : cell -> list cell -> C) (i : nat)
  (rows : list (list cell)) :
  map2 f (column_at i rows) rows = map (fun row => f (nth i row nan_cell) row) rows.
Proof.
  unfold map2, column_at. induction rows as [|row rest IH]; simpl;
    [reflexivity|].
  now rewrite IH.
Qed.

Lemma floats_of_CNum (xs : list float) : floats_of (map CNum xs) = Ok xs.
Proof.
  induction xs as [|x xs IH]; simpl; [reflexivity|]. now rewrite IH.
Qed.

Lemma rectangular_rows (df : DataFrame) (row : list cell) :
  rectangular df = true -> In row (data df) ->
  List.length row = List.length (columns df).
Proof.
  unfold rectangular. rewrite forallb_forall. intros H Hin.
  now apply Nat.eqb_eq, H.
Qed.

(** ** Coercion *)

Section Coercion.

Variable str_to_float : string -> option float.




(** After [df[col] = to_numeric(df[col]).fillna(0)] the column reads back
    as the coerced values. *)
Lemma coerce_column_reads_back (df : DataFrame) (col : string) (i : nat) :
  rectangular df = true ->
  positions col (columns df) = [i] ->
  exists df',
    coerce_column str_to_float df col = Ok df' /\
    columns df' = columns df /\
    data df' = map (fun row => assign_row (columns df) col
                                 (CNum (coerce str_to_float (nth i row nan_cell)))
                                 row) (data df) /\
    num_series df' col =
      Ok (map (coerce str_to_float) (column_at i (data df))).
Proof.
  intros Hrect Hpos.
  assert (Hi : In i (positions col (columns df))) by (rewrite Hpos; now left).
  apply positions_from_spec in Hi. destruct Hi as [_ [c [Hnth Hc]]].
  rewrite Nat.sub_0_r in Hnth.
  assert (Hin : in_columns col (columns df) = true).
  { apply existsb_exists. exists c. split; [|exact Hc].
    eapply nth_error_In; eassumption. }
  unfold coerce_column, series. rewrite Hpos. simpl.
  unfold setitem. rewrite Hin.
  eexists. split; [reflexivity|]. simpl.
  rewrite map2_map_l, map2_column_at.
  split; [reflexivity|]. split; [reflexivity|].
  unfold num_series, series. simpl. rewrite Hpos. simpl.
  unfold column_at. rewrite !map_map.
  rewrite <- (floats_of_CNum
                (map (fun row => coerce str_to_float (nth i row nan_cell))
                     (data df))).
  f_equal. rewrite map_map. apply map_ext_in. intros row Hrow.
  rewrite nth_assign_row by (eapply rectangular_rows; eassumption).
  now rewrite Hnth, Hc.
Qed.


End Coercion.



(** ** Conversion rate *)

Lemma conversion_rate_nonzero (c p : Q) :
  ~ p == 0 ->
  conversion_rate (Fin c) (Fin p) = Fin (round2 (Qred (Qred (c / p) * 100))).
Proof.
  intros Hp. unfold conversion_rate, fdiv.
  destruct (Qeq_bool p 0) eqn:He.
  - apply Qeq_bool_iff in He. contradiction.
  - reflexivity.
Qed.

Lemma conversion_rate_zero_press_buy (c : Q) :
  ~ c == 0 -> conversion_rate (Fin c) (Fin 0) = Fin 0.
Proof.
  intros Hc. unfold conversion_rate, fdiv. simpl. unfold Qsign_float.
  destruct (Qcompare c 0) eqn:Hcmp; try reflexivity.
  apply Qeq_alt in Hcmp. contradiction.
Qed.

(** C3 fails on the code: with [press_buy = 0] and [converted = 0] the
    ratio is NaN, [round] keeps it and [replace] only rewrites the two
    infinities, so the conversion rate of the row is NaN, not 0.  With
    [press_buy = 0] and [converted = 5] it is 0. *)
Theorem conversion_rate_zero_over_zero (str_to_float : string -> option float) :
  conversion_rate (Fin 0) (Fin 0) = NaN /\
  (exists out, process_data str_to_float zero_over_zero = Enriched out /\
               series out "conversion_rate" = Ok [CNum NaN]) /\
  (exists out, process_data str_to_float zero_press_buy = Enriched out /\
               series out "conversion_rate" = Ok [CNum (Fin 0)]).
Proof.
  split; [reflexivity|]. split; eexists; split; reflexivity.
Qed.

(** C8: the two rows (US, PayPal, W1, 100, 20) and (US, Stripe, W1, 50, 10)
    give the conversion rates [20; 20], the press-buy shares
    [66.67; 33.33] and the converted shares [66.67; 33.33]. *)
Theorem scenario_two_psps_metrics (str_to_float : string -> option float) :
  exists out,
    process_data str_to_float scenario_two_psps = Enriched out /\
    List.length (data out) = 2%nat /\
    series out "conversion_rate" = Ok [CNum (Fin 20); CNum (Fin 20)] /\
    series out "press_buy_share" =
      Ok [CNum (Fin (6667 # 100)); CNum (Fin (3333 # 100))] /\
    series out "converted_share" =
      Ok [CNum (Fin (6667 # 100)); CNum (Fin (3333 # 100))].
Proof.
  eexists. repeat split; reflexivity.
Qed.

(** ** The metric processor, step by step *)

Lemma positions_from_app (k : nat) (name : string) (a b : list label) :
  positions_from k name (a ++ b) =
  positions_from k name a ++ positions_from (k + List.length a) name b.
Proof.
  revert k. induction a as [|c a IH]; intros k; cbn [positions_from app].
  - simpl. now rewrite Nat.add_0_r.
  - rewrite IH. simpl List.length.
    replace (S k + List.length a)%nat with (k + S (List.length a))%nat by lia.
    now destruct (cell_eqb (CStr name) c).
Qed.


Lemma positions_present (name : string) (cols : list label) (i : nat) :
  positions name cols = [i] ->
  nth_error cols i = Some (CStr name) /\ (i < List.length cols)%nat /\
  in_columns name cols = true.
Proof.
  intros Hpos.
  assert (Hi : In i (positions name cols)) by (rewrite Hpos; now left).
  apply positions_from_spec in Hi. destruct Hi as [_ [c [Hnth Hc]]].
  rewrite Nat.sub_0_r in Hnth.
  assert (c = CStr name).
  { destruct c as [x|s]; simpl in Hc; [discriminate|].
    apply String.eqb_eq in Hc. now subst. }
  subst c. split; [exact Hnth|]. split.
  - apply nth_error_Some. congruence.
  - apply existsb_exists. exists (CStr name). split; [|exact Hc].
    eapply nth_error_In; eassumption.
Qed.

(** Assigning to one column leaves the cells of another as they are. *)
Lemma nth_assign_other (cols : list label) (name other : string) (v : cell)
  (row : list cell) (i : nat) :
  List.length row = List.length cols ->
  nth_error cols i = Some (CStr other) ->
  String.eqb name other = false ->
  nth i (assign_row cols name v row) nan_cell = nth i row nan_cell.
Proof.
  intros Hlen Hnth Hne. rewrite nth_assign_row by exact Hlen.
  rewrite Hnth. simpl. now rewrite Hne.
Qed.

Lemma nth_assign_same (cols : list label) (name : string) (v : cell)
  (row : list cell) (i : nat) :
  List.length row = List.length cols ->
  nth_error cols i = Some (CStr name) ->
  nth i (assign_row cols name v row) nan_cell = v.
Proof.
  intros Hlen Hnth. rewrite nth_assign_row by exact Hlen.
  rewrite Hnth. simpl. now rewrite String.eqb_refl.
Qed.

Lemma map2_maps {A B C D : Type} (f : A -> B -> C) (g : D -> A) (h : D -> B)
  (l : list D) :
  map2 f (map g l) (map h l) = map (fun x => f (g x) (h x)) l.
Proof.
  unfold map2. induction l as [|x l IH]; simpl; [reflexivity|].
  now rewrite IH.
Qed.

Lemma setitem_new (df : DataFrame) (name : string) (values : list cell) :
  in_columns name (columns df) = false ->
  setitem df name values =
  mkDF (columns df ++ [CStr name])
       (map2 (fun v row => row ++ [v]) values (data df)).
Proof.
  intros H. unfold setitem. now rewrite H.
Qed.

Lemma share_cells (total : float) (xs : list float) :
  (if fgt0 total then map (share total) xs
   else map (fun _ => CNum (Fin 0)) xs) = map (share_cell total) xs.
Proof.
  unfold share_cell. now destruct (fgt0 total).
Qed.

Lemma floats_of_numeric (cells : list cell) :
  Forall (fun c => exists x, c = CNum x) cells ->
  floats_of cells = Ok (map num_of cells).
Proof.
  induction 1 as [|c rest [x ->] _ IH]; simpl; [reflexivity|].
  now rewrite IH.
Qed.

Lemma positions_snoc_other (name other : string) (cols : list label) :
  String.eqb name other = false ->
  positions name (cols ++ [CStr other]) = positions name cols.
Proof.
  intros Hne. unfold positions. rewrite positions_from_app.
  cbn [positions_from cell_eqb]. rewrite Hne. apply app_nil_r.
Qed.

Lemma in_columns_snoc (name other : string) (cols : list label) :
  in_columns name (cols ++ [CStr other]) =
  in_columns name cols || String.eqb name other.
Proof.
  unfold in_columns. rewrite existsb_app. cbn [existsb cell_eqb].
  now rewrite orb_false_r.
Qed.

Lemma map2_map_self {A B C : Type} (f : A -> B -> C) (g : B -> A)
  (l : list B) :
  map2 f (map g l) l = map (fun x => f (g x) x) l.
Proof.
  unfold map2. induction l as [|x l IH]; simpl; [reflexivity|].
  now rewrite IH.
Qed.

Lemma mapM_all_ok {A B : Type} (f : A -> res B) (g : A -> B) (xs : list A) :
  (forall x, In x xs -> f x = Ok (g x)) -> mapM f xs = Ok (map g xs).
Proof.
  induction xs as [|x xs IH]; intros H; simpl; [reflexivity|].
  rewrite (H x (or_introl eq_refl)). simpl.
  rewrite IH by (intros y Hy; apply H; now right). reflexivity.
Qed.

(** Reading a column whose cells are all numbers. *)
Lemma num_series_at (df : DataFrame) (name : string) (i : nat) :
  positions name (columns df) = [i] ->
  Forall (fun row => exists x, nth i row nan_cell = CNum x) (data df) ->
  num_series df name = Ok (map (num_at i) (data df)).
Proof.
  intros Hpos Hnum. unfold num_series, series. rewrite Hpos.
  cbn [bind]. unfold column_at.
  rewrite floats_of_numeric.
  - now rewrite map_map.
  - apply Forall_map. exact Hnum.
Qed.

Lemma nth_snoc (row : list cell) (v : cell) (i : nat) :
  (i < List.length row)%nat ->
  nth i (row ++ [v]) nan_cell = nth i row nan_cell.
Proof.
  intros H. now apply app_nth1.
Qed.

(** [calculate_shares] on one group: every row gets its two shares. *)
Lemma calculate_shares_rows (cols : list label) (ip iv : nat)
  (group : list (list cell)) :
  positions "press_buy" cols = [ip] ->
  positions "converted" cols = [iv] ->
  in_columns "press_buy_share" cols = false ->
  in_columns "converted_share" cols = false ->
  Forall (fun row => List.length row = List.length cols /\
                     (exists x, nth ip row nan_cell = CNum x) /\
                     (exists x, nth iv row nan_cell = CNum x)) group ->
  calculate_shares (mkDF cols group) =
  Ok (mkDF ((cols ++ [CStr "press_buy_share"]) ++ [CStr "converted_share"])
           (with_shares ip iv group)).
Proof.
  intros Hp Hv Hps Hcs Hrows.
  destruct (positions_present _ _ _ Hv) as [_ [Hivlt _]].
  unfold calculate_shares.
  assert (Hpb : num_series (mkDF cols group) "press_buy" =
                Ok (map (num_at ip) group)).
  { apply num_series_at; [exact Hp|].
    eapply Forall_impl; [|exact Hrows]. intros row [_ [H _]]. exact H. }
  assert (Hcv : num_series (mkDF cols group) "converted" =
                Ok (map (num_at iv) group)).
  { apply num_series_at; [exact Hv|].
    eapply Forall_impl; [|exact Hrows]. intros row [_ [_ H]]. exact H. }
  rewrite Hpb, Hcv. cbn [bind].
  rewrite !share_cells.
  rewrite setitem_new by exact Hps. cbn [columns data].
  rewrite map2_map_l, map2_map_self.
  set (g1 := mkDF (cols ++ [CStr "press_buy_share"])
                  (map (fun x => x ++ [share_cell (fsum (map (num_at ip) group))
                                                  (num_at ip x)]) group)).
  assert (Hcv1 : num_series g1 "converted" = Ok (map (num_at iv) group)).
  { unfold g1. rewrite num_series_at with (i := iv).
    - cbn [data]. rewrite map_map. f_equal. apply map_ext_in.
      intros row Hin. unfold num_at. rewrite nth_snoc; [reflexivity|].
      rewrite Forall_forall in Hrows. destruct (Hrows row Hin) as [Hl _].
      now rewrite Hl.
    - cbn [columns]. now rewrite positions_snoc_other.
    - cbn [data]. apply Forall_map.
      eapply Forall_impl; [|exact Hrows]. intros row [Hl [_ H]].
      rewrite nth_snoc by (now rewrite Hl). exact H. }
  rewrite Hcv1. cbn [bind].
  rewrite setitem_new.
  - unfold g1. cbn [columns data].
    rewrite share_cells, map_map, map2_maps.
    reflexivity.
  - unfold g1. cbn [columns]. rewrite in_columns_snoc, Hcs. reflexivity.
Qed.

Lemma concat_frames_data {A : Type} (default_columns : list label)
  (g : A -> DataFrame) (ks : list A) :
  data (concat_frames default_columns (map g ks)) =
  flat_map (fun k => data (g k)) ks.
Proof.
  destruct ks as [|k ks]; [reflexivity|].
  cbn [map concat_frames data].
  rewrite <- (map_cons g k ks), !flat_map_concat_map, map_map.
  reflexivity.
Qed.

Section Metrics.

Variable str_to_float : string -> option float.
Variable df : DataFrame.
Variables ic iw ip iv : nat.
Hypothesis Hready : ready df ic iw ip iv.

Let cols := columns df.
Let rows := data df.

Lemma ready_row_length (row : list cell) :
  In row rows -> List.length row = List.length cols.
Proof.
  destruct Hready as [Hrect _]. now apply rectangular_rows.
Qed.

Lemma coerced_row_length (row : list cell) :
  List.length (coerced_row str_to_float cols ip iv row) = List.length row.
Proof.
  unfold coerced_row. now rewrite !length_assign_row.
Qed.

Lemma coerced_row_press_buy (row : list cell) :
  In row rows ->
  nth ip (coerced_row str_to_float cols ip iv row) nan_cell =
  CNum (coerce str_to_float (nth ip row nan_cell)).
Proof.
  intros Hin. destruct Hready as [_ [_ [_ [Hp [Hv _]]]]].
  destruct (positions_present _ _ _ Hp) as [Hpn _].
  unfold coerced_row.
  rewrite nth_assign_other with (other := "press_buy");
    [| rewrite length_assign_row; now apply ready_row_length
     | exact Hpn | reflexivity].
  apply nth_assign_same; [now apply ready_row_length | exact Hpn].
Qed.

Lemma coerced_row_converted (row : list cell) :
  In row rows ->
  nth iv (coerced_row str_to_float cols ip iv row) nan_cell =
  CNum (coerce str_to_float (nth iv row nan_cell)).
Proof.
  intros Hin. destruct Hready as [_ [_ [_ [Hp [Hv _]]]]].
  destruct (positions_present _ _ _ Hv) as [Hvn _].
  unfold coerced_row.
  apply nth_assign_same;
    [rewrite length_assign_row; now apply ready_row_length | exact Hvn].
Qed.

(** The cells of the other columns pass through the coercion. *)
Lemma coerced_row_other (row : list cell) (other : string) (i : nat) :
  In row rows ->
  nth_error cols i = Some (CStr other) ->
  String.eqb "press_buy" other = false ->
  String.eqb "converted" other = false ->
  nth i (coerced_row str_to_float cols ip iv row) nan_cell =
  nth i row nan_cell.
Proof.
  intros Hin Hnth H1 H2. unfold coerced_row.
  rewrite nth_assign_other with (other := other);
    [| rewrite length_assign_row; now apply ready_row_length
     | exact Hnth | exact H2].
  apply nth_assign_other with (other := other);
    [now apply ready_row_length | exact Hnth | exact H1].
Qed.

(** The frame after the two coercions and the conversion rate. *)
Lemma rated_frame :
  exists df2,
    (df1 <- coerce_column str_to_float df "press_buy" ;;
     coerce_column str_to_float df1 "converted") = Ok df2 /\
    num_series df2 "converted" =
      Ok (map (fun row => coerce str_to_float (nth iv row nan_cell)) rows) /\
    num_series df2 "press_buy" =
      Ok (map (fun row => coerce str_to_float (nth ip row nan_cell)) rows) /\
    columns df2 = cols /\
    data df2 = map (coerced_row str_to_float cols ip iv) rows.
Proof.
  destruct Hready as [Hrect [_ [_ [Hp [Hv _]]]]].
  destruct (positions_present _ _ _ Hp) as [Hpn _].
  destruct (positions_present _ _ _ Hv) as [Hvn _].
  destruct (coerce_column_reads_back str_to_float df "press_buy" ip Hrect Hp)
    as [df1 [Hok1 [Hcols1 [Hdata1 _]]]].
  assert (Hrect1 : rectangular df1 = true).
  { unfold rectangular. rewrite Hcols1, Hdata1. apply forallb_forall.
    intros row1 Hin1. apply in_map_iff in Hin1.
    destruct Hin1 as [row [<- Hin]]. rewrite length_assign_row.
    apply Nat.eqb_eq. now apply ready_row_length. }
  assert (Hv1 : positions "converted" (columns df1) = [iv])
    by (now rewrite Hcols1).
  destruct (coerce_column_reads_back str_to_float df1 "converted" iv
              Hrect1 Hv1) as [df2 [Hok2 [Hcols2 [Hdata2 Hread2]]]].
  assert (Hdata : data df2 = map (coerced_row str_to_float cols ip iv) rows).
  { rewrite Hdata2, Hdata1, Hcols1, map_map. apply map_ext_in.
    intros row Hin. unfold coerced_row. fold cols. f_equal. f_equal. f_equal.
    apply nth_assign_other with (other := "converted");
      [now apply ready_row_length | exact Hvn | reflexivity]. }
  exists df2. rewrite Hok1. cbn [bind]. split; [exact Hok2|].
  split; [|split; [|split]].
  - rewrite Hread2, Hdata1. unfold column_at. rewrite !map_map.
    f_equal. apply map_ext_in. intros row Hin. f_equal.
    apply nth_assign_other with (other := "converted");
      [now apply ready_row_length | exact Hvn | reflexivity].
  - rewrite num_series_at with (i := ip).
    + rewrite Hdata, map_map. f_equal. apply map_ext_in. intros row Hin.
      unfold num_at. now rewrite coerced_row_press_buy.
    + now rewrite Hcols2, Hcols1.
    + rewrite Hdata. apply Forall_map. apply Forall_forall.
      intros row Hin. eexists. now apply coerced_row_press_buy.
  - now rewrite Hcols2, Hcols1.
  - exact Hdata.
Qed.

Let rows3 := map (rated_row str_to_float cols ip iv) rows.
Let cols3 := cols ++ [CStr "conversion_rate"].

Lemma rated_row_numeric (row3 : list cell) :
  In row3 rows3 ->
  List.length row3 = List.length cols3 /\
  (exists x, nth ip row3 nan_cell = CNum x) /\
  (exists x, nth iv row3 nan_cell = CNum x).
Proof.
  intros Hin. apply in_map_iff in Hin. destruct Hin as [row [<- Hin]].
  destruct Hready as [_ [_ [_ [Hp [Hv _]]]]].
  destruct (positions_present _ _ _ Hp) as [_ [Hplt _]].
  destruct (positions_present _ _ _ Hv) as [_ [Hvlt _]].
  fold cols in Hplt, Hvlt.
  assert (Hlen : List.length (coerced_row str_to_float cols ip iv row)
                 = List.length cols)
    by (rewrite coerced_row_length; now apply ready_row_length).
  unfold rated_row, cols3. split; [|split].
  - rewrite !length_app, Hlen. reflexivity.
  - rewrite nth_snoc by (now rewrite Hlen). eexists.
    now apply coerced_row_press_buy.
  - rewrite nth_snoc by (now rewrite Hlen). eexists.
    now apply coerced_row_converted.
Qed.

(** [compute_metrics] in closed form: the groups in key order, each with
    its rows rated and given their shares. *)
Lemma compute_metrics_closed :
  compute_metrics str_to_float df =
  Ok (concat_frames cols3
        (map (fun k => mkDF (enriched_columns cols)
                            (with_shares ip iv (group_rows ic iw rows3 k)))
             (group_keys ic iw rows3))).
Proof.
  unfold compute_metrics.
  destruct rated_frame as [df2 [Hok [Hcv [Hpb [Hcols2 Hdata2]]]]].
  destruct (coerce_column str_to_float df "press_buy") as [df1|e] eqn:H1;
    [|discriminate]. cbn [bind] in Hok |- *. rewrite Hok. cbn [bind].
  rewrite Hcv, Hpb. cbn [bind].
  destruct Hready as [_ [Hc [Hw [Hp [Hv [Hcr [Hps Hcs]]]]]]].
  rewrite setitem_new by (now rewrite Hcols2).
  rewrite Hcols2, Hdata2, map2_maps, map2_maps.
  change (map (fun x => coerced_row str_to_float cols ip iv x ++
                 [CNum (conversion_rate
                          (coerce str_to_float (nth iv x nan_cell))
                          (coerce str_to_float (nth ip x nan_cell)))]) rows)
    with rows3.
  fold cols3.
  unfold groupby_apply, grouper. cbn [columns data].
  unfold cols3 at 1 2.
  rewrite !positions_snoc_other by reflexivity.
  fold cols in Hc, Hw, Hp, Hv, Hcr, Hps, Hcs.
  rewrite Hc, Hw. cbn [bind].
  rewrite mapM_all_ok with
    (g := fun k => mkDF (enriched_columns cols)
                        (with_shares ip iv (group_rows ic iw rows3 k))).
  - reflexivity.
  - intros k _. unfold enriched_columns. fold cols3.
    apply calculate_shares_rows.
    + unfold cols3. now rewrite positions_snoc_other.
    + unfold cols3. now rewrite positions_snoc_other.
    + unfold cols3. now rewrite in_columns_snoc, Hps.
    + unfold cols3. now rewrite in_columns_snoc, Hcs.
    + apply Forall_forall. intros row3 Hin.
      apply rated_row_numeric. unfold group_rows in Hin.
      apply filter_In in Hin. tauto.
Qed.

Lemma compute_metrics_rows :
  exists out,
    compute_metrics str_to_float df = Ok out /\
    data out = enriched_rows str_to_float cols ic iw ip iv rows /\
    (data out <> [] -> columns out = enriched_columns cols).
Proof.
  eexists. split; [apply compute_metrics_closed|].
  split.
  - rewrite concat_frames_data. reflexivity.
  - destruct (group_keys ic iw rows3) as [|k ks]; cbn [map concat_frames].
    + intros H. now contradiction H.
    + reflexivity.
Qed.

End Metrics.

(** ** Group keys *)

Lemma feqb_sym (x y : float) : feqb x y = feqb y x.
Proof.
  destruct x as [a| | |], y as [b| | |]; simpl; try reflexivity.
  destruct (Qeq_bool a b) eqn:H1, (Qeq_bool b a) eqn:H2; try reflexivity.
  - apply Qeq_bool_iff in H1. symmetry in H1. apply Qeq_bool_iff in H1.
    congruence.
  - apply Qeq_bool_iff in H2. symmetry in H2. apply Qeq_bool_iff in H2.
    congruence.
Qed.

Lemma feqb_trans (x y z : float) :
  feqb x y = true -> feqb y z = true -> feqb x z = true.
Proof.
  destruct x as [a| | |], y as [b| | |], z as [c| | |]; simpl;
    try discriminate; try reflexivity.
  intros H1 H2. apply Qeq_bool_iff in H1, H2. apply Qeq_bool_iff.
  now rewrite H1.
Qed.

Lemma feqb_refl (x : float) : feqb x x = true.
Proof.
  destruct x as [a| | |]; simpl; try reflexivity.
  apply Qeq_bool_iff. reflexivity.
Qed.

Lemma cell_eqb_sym (a b : cell) : cell_eqb a b = cell_eqb b a.
Proof.
  destruct a as [[a| | |]|s], b as [[b| | |]|t]; simpl; try reflexivity.
  - apply (feqb_sym (Fin a) (Fin b)).
  - apply String.eqb_sym.
Qed.

Lemma cell_eqb_notna (a b : cell) :
  cell_eqb a b = true -> cell_isna a = false /\ cell_isna b = false.
Proof.
  destruct a as [[a| | |]|s], b as [[b| | |]|t]; simpl; try discriminate;
    now split.
Qed.

Lemma cell_eqb_trans (a b c : cell) :
  cell_eqb a b = true -> cell_eqb b c = true -> cell_eqb a c = true.
Proof.
  destruct a as [[a| | |]|s], b as [[b| | |]|t], c as [[c| | |]|u]; simpl;
    try discriminate; try reflexivity.
  - apply (feqb_trans (Fin a) (Fin b) (Fin c)).
  - intros H1 H2. apply String.eqb_eq in H1, H2. subst.
    apply String.eqb_refl.
Qed.

Lemma cell_eqb_refl (a : cell) : cell_isna a = false -> cell_eqb a a = true.
Proof.
  destruct a as [[a| | |]|s]; simpl; try reflexivity; try discriminate.
  - intros _. apply (feqb_refl (Fin a)).
  - intros _. apply String.eqb_refl.
Qed.

Lemma key_eqb_sym (a b : key) : key_eqb a b = key_eqb b a.
Proof.
  unfold key_eqb. now rewrite (cell_eqb_sym (fst a)), (cell_eqb_sym (snd a)).
Qed.

Lemma key_eqb_trans (a b c : key) :
  key_eqb a b = true -> key_eqb b c = true -> key_eqb a c = true.
Proof.
  unfold key_eqb. rewrite !andb_true_iff. intros [H1 H2] [H3 H4].
  split; eapply cell_eqb_trans; eassumption.
Qed.

Lemma key_eqb_refl (a : key) : key_isna a = false -> key_eqb a a = true.
Proof.
  unfold key_isna, key_eqb. rewrite orb_false_iff. intros [H1 H2].
  now rewrite !cell_eqb_refl.
Qed.

Lemma key_eqb_notna (a b : key) :
  key_eqb a b = true -> key_isna a = false /\ key_isna b = false.
Proof.
  unfold key_eqb, key_isna. rewrite andb_true_iff. intros [H1 H2].
  apply cell_eqb_notna in H1, H2. destruct H1 as [-> ->], H2 as [-> ->].
  now split.
Qed.

(** Two keys that are equal select the same rows. *)
Lemma key_eqb_same_class (a b c : key) :
  key_eqb a b = true -> key_eqb c a = key_eqb c b.
Proof.
  intros Hab. destruct (key_eqb c a) eqn:Hca, (key_eqb c b) eqn:Hcb;
    try reflexivity.
  - rewrite (key_eqb_trans c a b Hca Hab) in Hcb. discriminate.
  - rewrite key_eqb_sym in Hab.
    rewrite (key_eqb_trans c b a Hcb Hab) in Hca. discriminate.
Qed.

Lemma distinct_keys_filter (p : key -> bool) (ks : list key) :
  distinct_keys ks -> distinct_keys (filter p ks).
Proof.
  unfold distinct_keys. induction 1 as [|a l Ha Hl IH]; simpl.
  - constructor.
  - destruct (p a); [|exact IH].
    constructor; [|exact IH].
    rewrite Forall_forall in *. intros k Hk. apply filter_In in Hk.
    apply Ha. tauto.
Qed.

Lemma unique_keys_distinct (ks : list key) : distinct_keys (unique_keys ks).
Proof.
  induction ks as [|k rest IH]; simpl.
  - constructor.
  - constructor.
    + apply Forall_forall. intros k' Hk'. apply filter_In in Hk'.
      destruct Hk' as [_ H]. now apply negb_true_iff in H.
    + now apply distinct_keys_filter.
Qed.

Lemma unique_keys_In (ks : list key) (k : key) :
  In k (unique_keys ks) -> In k ks.
Proof.
  revert k. induction ks as [|a rest IH]; intros k; simpl; [tauto|].
  intros [->|H]; [now left|]. right. apply IH.
  apply filter_In in H. tauto.
Qed.

Lemma unique_keys_complete (ks : list key) (k : key) :
  In k ks -> key_isna k = false ->
  exists k', In k' (unique_keys ks) /\ key_eqb k' k = true.
Proof.
  induction ks as [|a rest IH]; simpl; [tauto|].
  intros [->|Hin] Hna.
  - exists k. split; [now left | now apply key_eqb_refl].
  - destruct (IH Hin Hna) as [k' [Hk' He]].
    destruct (key_eqb a k') eqn:Ha.
    + exists a. split; [now left|]. eapply key_eqb_trans; eassumption.
    + exists k'. split; [|exact He]. right. apply filter_In.
      split; [exact Hk'|]. now rewrite Ha.
Qed.

Lemma insert_key_perm (k : key) (ks : list key) :
  Permutation (k :: ks) (insert_key k ks).
Proof.
  induction ks as [|a rest IH]; simpl; [reflexivity|].
  destruct (key_leb k a); [reflexivity|].
  rewrite perm_swap. now constructor.
Qed.

Lemma sort_keys_perm (ks : list key) : Permutation ks (sort_keys ks).
Proof.
  induction ks as [|k rest IH]; simpl; [reflexivity|].
  rewrite <- insert_key_perm. now constructor.
Qed.

Lemma distinct_keys_perm (ks ks' : list key) :
  Permutation ks ks' -> distinct_keys ks -> distinct_keys ks'.
Proof.
  unfold distinct_keys. induction 1 as [|x l l' Hp IH|x y l|l l' l'' _ IH1 _ IH2];
    intros Hd.
  - constructor.
  - inversion Hd as [|? ? Hx Hl]; subst. constructor; [|now apply IH].
    eapply Permutation_Forall; eassumption.
  - inversion Hd as [|? ? Hy Hrest]; subst.
    inversion Hrest as [|? ? Hx Hl]; subst.
    inversion Hy as [|? ? Hyx Hyl]; subst.
    constructor.
    + constructor; [now rewrite key_eqb_sym | exact Hx].
    + constructor; assumption.
  - auto.
Qed.

Section Groups.

Variables ic iw : nat.
Variable rows : list (list cell).

Lemma group_keys_distinct : distinct_keys (group_keys ic iw rows).
Proof.
  unfold group_keys. eapply distinct_keys_perm; [apply sort_keys_perm|].
  apply unique_keys_distinct.
Qed.

Lemma group_keys_In (k : key) :
  In k (group_keys ic iw rows) ->
  key_isna k = false /\ exists row, In row rows /\ row_key ic iw row = k.
Proof.
  unfold group_keys. intros H.
  eapply Permutation_in in H; [|symmetry; apply sort_keys_perm].
  apply unique_keys_In, filter_In in H. destruct H as [H Hna].
  apply negb_true_iff in Hna. split; [exact Hna|].
  apply in_map_iff in H. destruct H as [row [Hk Hin]]. now exists row.
Qed.

Lemma group_keys_complete (row : list cell) :
  In row rows -> key_isna (row_key ic iw row) = false ->
  exists k, In k (group_keys ic iw rows) /\
            key_eqb k (row_key ic iw row) = true.
Proof.
  intros Hin Hna.
  destruct (unique_keys_complete
              (filter (fun k => negb (key_isna k)) (map (row_key ic iw) rows))
              (row_key ic iw row)) as [k [Hk He]].
  - apply filter_In. split; [now apply in_map | now rewrite Hna].
  - exact Hna.
  - exists k. split; [|exact He]. unfold group_keys.
    eapply Permutation_in; [apply sort_keys_perm | exact Hk].
Qed.

End Groups.

(** Selecting one class of keys out of the groups laid one after another:
    only the group of that class is left. *)
Lemma filter_groups {A : Type} (kf : A -> key) (g : key -> list A)
  (ks : list key) (k0 : key) :
  distinct_keys ks ->
  (forall k x, In k ks -> In x (g k) -> key_eqb (kf x) k = true) ->
  filter (fun x => key_eqb (kf x) k0) (flat_map g ks) =
  match find (fun k => key_eqb k k0) ks with
  | Some k => g k
  | None => []
  end.
Proof.
  unfold distinct_keys. intros Hd. induction Hd as [|a l Ha Hl IH]; intros Hg.
  - reflexivity.
  - cbn [flat_map find]. rewrite filter_app.
    assert (Hg' : forall k x, In k l -> In x (g k) -> key_eqb (kf x) k = true)
      by (intros k x Hk; apply Hg; now right).
    specialize (IH Hg').
    destruct (key_eqb a k0) eqn:Hak.
    + assert (Hnone : find (fun k => key_eqb k k0) l = None).
      { destruct (find (fun k => key_eqb k k0) l) as [k|] eqn:Hf;
          [|reflexivity].
        apply find_some in Hf. destruct Hf as [Hin Hk].
        rewrite Forall_forall in Ha. specialize (Ha k Hin).
        rewrite key_eqb_sym in Hk.
        rewrite (key_eqb_trans a k0 k Hak Hk) in Ha. discriminate. }
      rewrite IH, Hnone, app_nil_r.
      apply forallb_filter_id. apply forallb_forall. intros x Hx.
      eapply key_eqb_trans; [|exact Hak]. apply Hg; [now left | exact Hx].
    + rewrite IH.
      replace (filter (fun x => key_eqb (kf x) k0) (g a)) with (@nil A);
        [reflexivity|].
      symmetry. rewrite <- (filter_false (g a)).
      apply filter_ext_in. intros x Hx.
      destruct (key_eqb (kf x) k0) eqn:Hx0; [|reflexivity].
      assert (Hxa : key_eqb (kf x) a = true) by (apply Hg; [now left|exact Hx]).
      rewrite key_eqb_sym in Hxa.
      rewrite (key_eqb_trans a (kf x) k0 Hxa Hx0) in Hak. discriminate.
Qed.

(** ** The rows of the enriched table, group by group *)

Section EnrichedGroups.

Variable str_to_float : string -> option float.
Variable df : DataFrame.
Variables ic iw ip iv : nat.
Hypothesis Hready : ready df ic iw ip iv.

Let cols := columns df.
Let rows := data df.
Let rate := rated_row str_to_float cols ip iv.

Lemma rated_row_key (row : list cell) :
  In row rows -> row_key ic iw (rate row) = row_key ic iw row.
Proof.
  intros Hin. destruct Hready as [_ [Hc [Hw _]]].
  destruct (positions_present _ _ _ Hc) as [Hcn [Hclt _]].
  destruct (positions_present _ _ _ Hw) as [Hwn [Hwlt _]].
  fold cols in Hcn, Hclt, Hwn, Hwlt.
  assert (Hlen : List.length (coerced_row str_to_float cols ip iv row)
                 = List.length cols).
  { rewrite (coerced_row_length str_to_float df).
    now apply (ready_row_length df ic iw ip iv Hready). }
  unfold row_key, rate, rated_row.
  rewrite !nth_snoc by (now rewrite Hlen). f_equal.
  - apply (coerced_row_other str_to_float df ic iw ip iv Hready row "country");
      [exact Hin | exact Hcn | reflexivity | reflexivity].
  - apply (coerced_row_other str_to_float df ic iw ip iv Hready row "week");
      [exact Hin | exact Hwn | reflexivity | reflexivity].
Qed.

Lemma rated_groups (k : key) :
  group_rows ic iw (map rate rows) k = map rate (group_rows ic iw rows k).
Proof.
  unfold group_rows.
  assert (H : forall l,
             (forall r, In r l -> row_key ic iw (rate r) = row_key ic iw r) ->
             filter (fun row => key_eqb (row_key ic iw row) k) (map rate l) =
             map rate (filter (fun row => key_eqb (row_key ic iw row) k) l)).
  { induction l as [|row rest IH]; intros Hk; [reflexivity|].
    cbn [map filter]. rewrite (Hk row (or_introl eq_refl)).
    rewrite IH by (intros r Hr; apply Hk; now right).
    now destruct (key_eqb (row_key ic iw row) k). }
  apply H. intros r Hr. now apply rated_row_key.
Qed.

(** The key columns pass through [calculate_shares]. *)
Lemma with_shares_key (group : list (list cell)) (row : list cell) :
  (forall r, In r group -> In r (map rate rows)) ->
  In row (with_shares ip iv group) ->
  exists row3, In row3 group /\
    row = (row3 ++ [share_cell (fsum (map (num_at ip) group)) (num_at ip row3)])
          ++ [share_cell (fsum (map (num_at iv) group)) (num_at iv row3)] /\
    row_key ic iw row = row_key ic iw row3 /\
    num_at ip row = num_at ip row3 /\
    num_at iv row = num_at iv row3.
Proof.
  intros Hsub Hin. unfold with_shares in Hin. apply in_map_iff in Hin.
  destruct Hin as [row3 [<- Hin3]]. exists row3. split; [exact Hin3|].
  split; [reflexivity|].
  destruct (rated_row_numeric str_to_float df ic iw ip iv Hready row3
              (Hsub row3 Hin3)) as [Hlen _].
  destruct Hready as [_ [Hc [Hw [Hp [Hv _]]]]].
  destruct (positions_present _ _ _ Hc) as [_ [Hclt _]].
  destruct (positions_present _ _ _ Hw) as [_ [Hwlt _]].
  destruct (positions_present _ _ _ Hp) as [_ [Hplt _]].
  destruct (positions_present _ _ _ Hv) as [_ [Hvlt _]].
  rewrite length_app in Hlen. cbn [List.length] in Hlen.
  unfold row_key, num_at.
  rewrite !(nth_snoc (row3 ++ _)) by (rewrite length_app; lia).
  rewrite !nth_snoc by lia. repeat split.
Qed.

(** The rows of one group of the enriched table. *)
Lemma enriched_group (k : key) :
  filter (fun row => key_eqb (row_key ic iw row) k)
         (enriched_rows str_to_float cols ic iw ip iv rows) =
  with_shares ip iv (map rate (group_rows ic iw rows k)).
Proof.
  unfold enriched_rows. fold rate.
  rewrite filter_groups.
  - destruct (find (fun k' => key_eqb k' k) (group_keys ic iw (map rate rows)))
      as [k'|] eqn:Hf.
    + apply find_some in Hf. destruct Hf as [_ Hk].
      rewrite !rated_groups. f_equal. f_equal. unfold group_rows.
      apply filter_ext. intros row. now apply key_eqb_same_class.
    + replace (group_rows ic iw rows k) with (@nil (list cell));
        [reflexivity|].
      symmetry. unfold group_rows. rewrite <- (filter_false rows).
      apply filter_ext_in. intros row Hin.
      destruct (key_eqb (row_key ic iw row) k) eqn:Hk; [|reflexivity].
      exfalso.
      destruct (group_keys_complete ic iw (map rate rows) (rate row))
        as [k' [Hk' He]].
      * now apply in_map.
      * rewrite rated_row_key by exact Hin. now apply key_eqb_notna in Hk.
      * rewrite rated_row_key in He by exact Hin.
        apply (find_none _ _ Hf) in Hk'.
        rewrite (key_eqb_trans k' _ k He Hk) in Hk'. discriminate.
  - apply group_keys_distinct.
  - intros k' row Hk' Hin.
    apply with_shares_key in Hin.
    + destruct Hin as [row3 [Hin3 [_ [-> _]]]].
      unfold group_rows in Hin3. apply filter_In in Hin3. tauto.
    + intros r Hr. unfold group_rows in Hr. apply filter_In in Hr. tauto.
Qed.

End EnrichedGroups.

Section EnrichedTable.

Variable str_to_float : string -> option float.
Variable df : DataFrame.
Variables ic iw ip iv : nat.
Hypothesis Hready : ready df ic iw ip iv.

Let cols := columns df.
Let rows := data df.
Let rate := rated_row str_to_float cols ip iv.


Lemma enriched_positions (name : string) (i : nat) :
  positions name cols = [i] ->
  String.eqb name "conversion_rate" = false ->
  String.eqb name "press_buy_share" = false ->
  String.eqb name "converted_share" = false ->
  position name (cols ++ [CStr "conversion_rate"]) = i /\
  position name (enriched_columns cols) = i.
Proof.
  intros Hpos H1 H2 H3. unfold position, enriched_columns.
  rewrite !positions_snoc_other by assumption. rewrite Hpos. now split.
Qed.


(** The enriched table of a ready frame, read by column name. *)
Lemma enriched_table :
  exists out,
    compute_metrics str_to_float df = Ok out /\
    (forall row, key_of out row = row_key ic iw row) /\
    (forall row, value_of out "press_buy" row = num_at ip row) /\
    (forall row, value_of out "converted" row = num_at iv row) /\
    (forall k, group_of out k =
               with_shares ip iv (map rate (group_rows ic iw rows k))) /\
    data out = enriched_rows str_to_float cols ic iw ip iv rows /\
    (data out <> [] -> columns out = enriched_columns cols).
Proof.
  destruct (compute_metrics_rows str_to_float df ic iw ip iv Hready)
    as [out [Hok [Hdata Hcols]]].
  assert (Hcols' : columns out = cols ++ [CStr "conversion_rate"] \/
                   columns out = enriched_columns cols).
  { rewrite (compute_metrics_closed str_to_float df ic iw ip iv Hready) in Hok.
    injection Hok as <-.
    destruct (group_keys ic iw
                (map (rated_row str_to_float (columns df) ip iv) (data df)));
      [left | right]; reflexivity. }
  destruct Hready as [_ [Hc [Hw [Hp [Hv _]]]]].
  destruct (enriched_positions "country" ic Hc eq_refl eq_refl eq_refl)
    as [Hc1 Hc2].
  destruct (enriched_positions "week" iw Hw eq_refl eq_refl eq_refl)
    as [Hw1 Hw2].
  destruct (enriched_positions "press_buy" ip Hp eq_refl eq_refl eq_refl)
    as [Hp1 Hp2].
  destruct (enriched_positions "converted" iv Hv eq_refl eq_refl eq_refl)
    as [Hv1 Hv2].
  assert (Hkey : forall row, key_of out row = row_key ic iw row).
  { intros row. unfold key_of, cell_of, row_key.
    destruct Hcols' as [-> | ->]; now rewrite ?Hc1, ?Hw1, ?Hc2, ?Hw2. }
  exists out. split; [exact Hok|]. split; [exact Hkey|].
  split; [|split; [|split; [|split]]].
  - intros row. unfold value_of, cell_of, num_at.
    destruct Hcols' as [-> | ->]; now rewrite ?Hp1, ?Hp2.
  - intros row. unfold value_of, cell_of, num_at.
    destruct Hcols' as [-> | ->]; now rewrite ?Hv1, ?Hv2.
  - intros k. unfold group_of. rewrite Hdata.
    etransitivity;
      [|apply (enriched_group str_to_float df ic iw ip iv Hready k)].
    apply filter_ext. intros row. now rewrite Hkey.
  - exact Hdata.
  - exact Hcols.
Qed.

End EnrichedTable.

(** ** Canonical tables *)

Lemma canonical_ready (df : DataFrame) :
  canonical df -> ready df 0 2 3 4.
Proof.
  intros [Hrect [Hcols | Hcols]]; unfold ready; (split; [exact Hrect|]);
    rewrite Hcols; repeat split; reflexivity.
Qed.

Lemma canonical_process_data (str_to_float : string -> option float)
  (df : DataFrame) :
  canonical df ->
  process_data str_to_float df =
  match compute_metrics str_to_float df with
  | Ok enriched => Enriched enriched
  | Raise e => Raised e
  end.
Proof.
  intros [_ Hcols]. destruct df as [c d]. cbn [columns] in Hcols.
  unfold process_data, detect_columns, rename. cbn [columns data].
  destruct Hcols as [-> | ->].
  - assert (Hd : detect_loop column_mapping canonical_columns [] =
                 Ok [("country", CStr "country"); ("psp", CStr "psp");
                     ("week", CStr "week"); ("press_buy", CStr "press_buy");
                     ("converted", CStr "converted")]) by reflexivity.
    rewrite Hd. reflexivity.
  - assert (Hd : detect_loop column_mapping
                   (canonical_columns ++ [CStr "payment_option"]) [] =
                 Ok [("country", CStr "country"); ("psp", CStr "psp");
                     ("week", CStr "week"); ("press_buy", CStr "press_buy");
                     ("converted", CStr "converted")]) by reflexivity.
    rewrite Hd. reflexivity.
Qed.

Section EnrichedShares.

Variable str_to_float : string -> option float.
Variable df : DataFrame.
Variables ic iw ip iv : nat.
Hypothesis Hready : ready df ic iw ip iv.

Let cols := columns df.
Let rows := data df.
Let rate := rated_row str_to_float cols ip iv.




End EnrichedShares.



Lemma canonical_group_of (df : DataFrame) (k : key) :
  canonical df -> group_of df k = group_rows 0 2 (data df) k.
Proof.
  intros [_ [Hcols | Hcols]]; unfold group_of, key_of, cell_of, group_rows;
    rewrite Hcols; reflexivity.
Qed.


(** ** Rounding and sums *)














(** ** Counting the rows of the groups *)

Lemma groups_length_cons {A : Type} (p : key -> A -> bool) (r : A)
  (rows : list A) (ks : list key) :
  List.length (flat_map (fun k => filter (p k) (r :: rows)) ks) =
  (List.length (filter (fun k => p k r) ks) +
   List.length (flat_map (fun k => filter (p k) rows) ks))%nat.
Proof.
  induction ks as [|k ks IH]; [reflexivity|].
  cbn [flat_map]. rewrite !length_app, IH. cbn [filter].
  destruct (p k r); cbn [List.length]; lia.
Qed.

Lemma one_key_of_class (ks : list key) (k0 : key) :
  distinct_keys ks ->
  (exists k, In k ks /\ key_eqb k k0 = true) ->
  List.length (filter (fun k => key_eqb k0 k) ks) = 1%nat.
Proof.
  unfold distinct_keys. induction 1 as [|a l Ha Hl IH]; intros [k [Hin Hk]].
  - contradiction.
  - cbn [filter]. destruct (key_eqb k0 a) eqn:Ha0.
    + cbn [List.length]. f_equal.
      replace (filter (fun k' => key_eqb k0 k') l) with (@nil key);
        [reflexivity|].
      symmetry. rewrite <- (filter_false l). apply filter_ext_in.
      intros k' Hk'. destruct (key_eqb k0 k') eqn:H0; [|reflexivity].
      rewrite Forall_forall in Ha. specialize (Ha k' Hk').
      rewrite key_eqb_sym in Ha0.
      rewrite (key_eqb_trans a k0 k' Ha0 H0) in Ha. discriminate.
    + apply IH. destruct Hin as [->|Hin].
      * rewrite key_eqb_sym in Hk. congruence.
      * now exists k.
Qed.

Lemma no_key_of_missing (ks : list key) (k0 : key) :
  key_isna k0 = true -> filter (fun k => key_eqb k0 k) ks = [].
Proof.
  intros Hna. rewrite <- (filter_false ks). apply filter_ext. intros k.
  destruct (key_eqb k0 k) eqn:H; [|reflexivity].
  apply key_eqb_notna in H. destruct H. congruence.
Qed.

(** The groups hold every row with a key, once. *)
Lemma groups_length (ic iw : nat) (rows : list (list cell)) :
  List.length (flat_map (group_rows ic iw rows) (group_keys ic iw rows)) =
  List.length (filter (fun row => negb (key_isna (row_key ic iw row))) rows).
Proof.
  pose proof (group_keys_distinct ic iw rows) as Hd.
  pose proof (group_keys_complete ic iw rows) as Hc.
  unfold group_rows.
  generalize dependent (group_keys ic iw rows). intros ks Hd Hc.
  induction rows as [|row rest IH].
  - clear Hd Hc. induction ks as [|k ks IHk]; [reflexivity | exact IHk].
  - rewrite (groups_length_cons
               (fun k r => key_eqb (row_key ic iw r) k) row rest ks).
    rewrite IH by (intros r Hr; apply Hc; now right).
    cbn [filter]. destruct (key_isna (row_key ic iw row)) eqn:Hna;
      cbn [negb List.length].
    + now rewrite no_key_of_missing.
    + rewrite one_key_of_class; [reflexivity | exact Hd |].
      apply Hc; [now left | exact Hna].
Qed.

Lemma flat_map_length_ext {A B C : Type} (f : A -> list B) (g : A -> list C)
  (l : list A) :
  (forall x, List.length (f x) = List.length (g x)) ->
  List.length (flat_map f l) = List.length (flat_map g l).
Proof.
  intros H. induction l as [|x l IH]; [reflexivity|].
  cbn [flat_map]. now rewrite !length_app, H, IH.
Qed.

Section EnrichedCount.

Variable str_to_float : string -> option float.
Variable df : DataFrame.
Variables ic iw ip iv : nat.
Hypothesis Hready : ready df ic iw ip iv.

(** The enriched table has one row for each row with a key. *)
Lemma enriched_rows_length :
  List.length (enriched_rows str_to_float (columns df) ic iw ip iv (data df)) =
  List.length
    (filter (fun row => negb (key_isna (row_key ic iw row))) (data df)).
Proof.
  unfold enriched_rows.
  rewrite flat_map_length_ext with
    (g := group_rows ic iw
            (map (rated_row str_to_float (columns df) ip iv) (data df)))
    by (intros k; unfold with_shares; apply length_map).
  rewrite groups_length.
  assert (H : forall l,
            (forall r, In r l -> In r (data df)) ->
            List.length
              (filter (fun row => negb (key_isna (row_key ic iw row)))
                      (map (rated_row str_to_float (columns df) ip iv) l)) =
            List.length
              (filter (fun row => negb (key_isna (row_key ic iw row))) l)).
  { induction l as [|row rest IH]; intros Hsub; [reflexivity|].
    cbn [map filter].
    rewrite (rated_row_key str_to_float df ic iw ip iv Hready row)
      by (apply Hsub; now left).
    destruct (negb (key_isna (row_key ic iw row))); cbn [List.length];
      rewrite IH by (intros r Hr; apply Hsub; now right); reflexivity. }
  apply H. auto.
Qed.

(** The cells of the input columns in a row of the enriched table. *)
Lemma enriched_group_cells (k : key) :
  map (firstn (List.length (columns df)))
      (with_shares ip iv
         (map (rated_row str_to_float (columns df) ip iv)
              (group_rows ic iw (data df) k))) =
  map (coerced_row str_to_float (columns df) ip iv)
      (group_rows ic iw (data df) k).
Proof.
  unfold with_shares. rewrite !map_map. apply map_ext_in. intros row Hin.
  unfold group_rows in Hin. apply filter_In in Hin. destruct Hin as [Hin _].
  assert (Hlen : List.length (coerced_row str_to_float (columns df) ip iv row)
                 = List.length (columns df)).
  { rewrite (coerced_row_length str_to_float df).
    now apply (ready_row_length df ic iw ip iv Hready). }
  unfold rated_row. rewrite <- !app_assoc, <- Hlen.
  rewrite firstn_app, firstn_all, Nat.sub_diag. cbn [firstn].
  apply app_nil_r.
Qed.

End EnrichedCount.

(** ** The order of the keys *)

Lemma string_leb_refl (s : string) : String.leb s s = true.
Proof.
  unfold String.leb.
  pose proof (proj2 (String_as_OT.cmp_eq s s) eq_refl) as H.
  unfold String_as_OT.cmp in H. now rewrite H.
Qed.

Lemma string_leb_trans (a b c : string) :
  String.leb a b = true -> String.leb b c = true -> String.leb a c = true.
Proof.
  unfold String.leb. intros Hab Hbc.
  destruct (String.compare a b) eqn:Cab; try discriminate;
    destruct (String.compare b c) eqn:Cbc; try discriminate.
  - apply String.compare_eq_iff in Cab, Cbc. subst.
    apply (string_leb_refl c).
  - apply String.compare_eq_iff in Cab. subst. now rewrite Cbc.
  - apply String.compare_eq_iff in Cbc. subst. now rewrite Cab.
  - pose proof (proj1 (String_as_OT.cmp_lt a b) Cab) as Lab.
    pose proof (proj1 (String_as_OT.cmp_lt b c) Cbc) as Lbc.
    pose proof (proj2 (String_as_OT.cmp_lt a c)
                  (String_as_OT.lt_trans _ _ _ Lab Lbc)) as H.
    unfold String_as_OT.cmp in H. now rewrite H.
Qed.

Lemma fleb_total (x y : float) :
  isna x = false -> isna y = false -> fleb x y = false -> fleb y x = true.
Proof.
  destruct x as [a| | |], y as [b| | |]; simpl; try discriminate;
    try reflexivity.
  intros _ _ H. apply Qle_bool_iff.
  destruct (Qlt_le_dec b a) as [Hlt|Hle]; [lra|].
  apply Qle_bool_iff in Hle. congruence.
Qed.

Lemma fleb_trans (x y z : float) :
  isna y = false -> fleb x y = true -> fleb y z = true -> fleb x z = true.
Proof.
  destruct x as [a| | |], y as [b| | |], z as [c| | |]; simpl;
    try discriminate; try reflexivity.
  intros _ H1 H2. apply Qle_bool_iff in H1, H2. apply Qle_bool_iff. lra.
Qed.

Lemma fleb_antisym (x y : float) :
  isna x = false -> isna y = false ->
  fleb x y = true -> fleb y x = true -> feqb x y = true.
Proof.
  destruct x as [a| | |], y as [b| | |]; simpl; try discriminate;
    try reflexivity.
  intros _ _ H1 H2. apply Qle_bool_iff in H1, H2. apply Qeq_bool_iff. lra.
Qed.

Lemma feqb_fleb (x y : float) :
  isna x = false -> feqb x y = true -> fleb x y = true.
Proof.
  destruct x as [a| | |], y as [b| | |]; simpl; try discriminate;
    try reflexivity.
  intros _ H. apply Qeq_bool_iff in H. apply Qle_bool_iff. lra.
Qed.

Lemma cell_leb_total (a b : cell) :
  cell_isna a = false -> cell_isna b = false ->
  cell_leb a b = false -> cell_leb b a = true.
Proof.
  destruct a as [x|s], b as [y|t]; simpl; try discriminate; try reflexivity.
  - intros Hx Hy. apply fleb_total; [now destruct x | now destruct y].
  - intros _ _ H. destruct (String.leb_total s t) as [H'|H'];
      [congruence | exact H'].
Qed.

Lemma cell_leb_trans (a b c : cell) :
  cell_isna b = false ->
  cell_leb a b = true -> cell_leb b c = true -> cell_leb a c = true.
Proof.
  destruct a as [x|s], b as [y|t], c as [z|u]; simpl; try discriminate;
    try reflexivity.
  - intros Hy. apply fleb_trans. now destruct y.
  - intros _. apply string_leb_trans.
Qed.

Lemma cell_leb_antisym (a b : cell) :
  cell_isna a = false -> cell_isna b = false ->
  cell_leb a b = true -> cell_leb b a = true -> cell_eqb a b = true.
Proof.
  destruct a as [[a| | |]|s], b as [[b| | |]|t]; simpl; try discriminate;
    try reflexivity.
  - intros _ _. now apply (fleb_antisym (Fin a) (Fin b)).
  - intros _ _ H1 H2. apply String.eqb_eq. now apply String.leb_antisym.
Qed.

Lemma cell_eqb_leb (a b : cell) : cell_eqb a b = true -> cell_leb a b = true.
Proof.
  destruct a as [[a| | |]|s], b as [[b| | |]|t]; simpl; try discriminate;
    try reflexivity.
  - now apply (feqb_fleb (Fin a) (Fin b)).
  - intros H. apply String.eqb_eq in H. subst. apply string_leb_refl.
Qed.

Lemma key_leb_total (a b : key) :
  key_isna a = false -> key_isna b = false ->
  key_leb a b = false -> key_leb b a = true.
Proof.
  unfold key_isna, key_leb. rewrite !orb_false_iff.
  intros [Ha1 Ha2] [Hb1 Hb2]. rewrite (cell_eqb_sym (fst b)).
  destruct (cell_eqb (fst a) (fst b)); now apply cell_leb_total.
Qed.

Lemma key_eqb_leb (a b : key) : key_eqb a b = true -> key_leb a b = true.
Proof.
  unfold key_eqb, key_leb. rewrite andb_true_iff. intros [H1 H2].
  rewrite H1. now apply cell_eqb_leb.
Qed.

Lemma key_leb_trans (a b c : key) :
  key_isna a = false -> key_isna b = false -> key_isna c = false ->
  key_leb a b = true -> key_leb b c = true -> key_leb a c = true.
Proof.
  unfold key_isna, key_leb. rewrite !orb_false_iff.
  intros [Ha1 Ha2] [Hb1 Hb2] [Hc1 Hc2].
  destruct (cell_eqb (fst a) (fst b)) eqn:Eab,
           (cell_eqb (fst b) (fst c)) eqn:Ebc; intros Hab Hbc.
  - rewrite (cell_eqb_trans _ _ _ Eab Ebc).
    apply (cell_leb_trans (snd a) (snd b) (snd c)); assumption.
  - destruct (cell_eqb (fst a) (fst c)) eqn:Eac.
    + rewrite cell_eqb_sym in Eab.
      rewrite (cell_eqb_trans _ _ _ Eab Eac) in Ebc. discriminate.
    + eapply cell_leb_trans; [exact Hb1 | now apply cell_eqb_leb | exact Hbc].
  - destruct (cell_eqb (fst a) (fst c)) eqn:Eac.
    + rewrite cell_eqb_sym in Ebc.
      rewrite (cell_eqb_trans _ _ _ Eac Ebc) in Eab. discriminate.
    + eapply cell_leb_trans; [exact Hb1 | exact Hab | now apply cell_eqb_leb].
  - destruct (cell_eqb (fst a) (fst c)) eqn:Eac.
    + exfalso.
      assert (Hca : cell_leb (fst c) (fst a) = true)
        by (apply cell_eqb_leb; now rewrite cell_eqb_sym).
      assert (Hba : cell_leb (fst b) (fst a) = true)
        by (eapply cell_leb_trans; [exact Hc1 | exact Hbc | exact Hca]).
      rewrite (cell_leb_antisym _ _ Ha1 Hb1 Hab Hba) in Eab. discriminate.
    + apply (cell_leb_trans (fst a) (fst b) (fst c)); assumption.
Qed.

Lemma insert_key_sorted (k : key) (ks : list key) :
  key_isna k = false ->
  Forall (fun k' => key_isna k' = false) ks ->
  StronglySorted (fun a b => key_leb a b = true) ks ->
  StronglySorted (fun a b => key_leb a b = true) (insert_key k ks).
Proof.
  intros Hk Hna Hs. induction Hs as [|a l Hl IH Ha]; simpl.
  - repeat constructor.
  - inversion Hna as [|? ? Hana Hlna]; subst.
    destruct (key_leb k a) eqn:Hka.
    + constructor; [now constructor|].
      constructor; [exact Hka|].
      rewrite Forall_forall in *. intros x Hx.
      apply (key_leb_trans k a x); auto.
    + constructor; [now apply IH|].
      apply (Permutation_Forall (insert_key_perm k l)).
      constructor; [|exact Ha]. now apply key_leb_total.
Qed.

Lemma sort_keys_sorted (ks : list key) :
  Forall (fun k => key_isna k = false) ks ->
  StronglySorted (fun a b => key_leb a b = true) (sort_keys ks).
Proof.
  induction 1 as [|k ks Hk Hks IH]; simpl; [constructor|].
  apply insert_key_sorted; [exact Hk | | exact IH].
  apply (Permutation_Forall (sort_keys_perm ks)). exact Hks.
Qed.

Lemma group_keys_sorted (ic iw : nat) (rows : list (list cell)) :
  StronglySorted (fun a b => key_leb a b = true) (group_keys ic iw rows).
Proof.
  unfold group_keys. apply sort_keys_sorted. apply Forall_forall.
  intros k Hk. apply unique_keys_In, filter_In in Hk.
  destruct Hk as [_ Hk]. now apply negb_true_iff in Hk.
Qed.

Lemma StronglySorted_app {A : Type} (R : A -> A -> Prop) (l1 l2 : list A) :
  StronglySorted R l1 -> StronglySorted R l2 ->
  (forall x y, In x l1 -> In y l2 -> R x y) ->
  StronglySorted R (l1 ++ l2).
Proof.
  intros H1 H2 H. induction H1 as [|a l Hl IH Ha]; [exact H2|].
  cbn [app]. constructor.
  - apply IH. intros x y Hx. apply H. now right.
  - apply Forall_app. split; [exact Ha|].
    apply Forall_forall. intros y Hy. apply H; [now left | exact Hy].
Qed.

Lemma all_related_sorted {A : Type} (R : A -> A -> Prop) (l : list A) :
  (forall x y, In x l -> In y l -> R x y) -> StronglySorted R l.
Proof.
  induction l as [|a l IH]; intros H; constructor.
  - apply IH. intros x y Hx Hy. apply H; now right.
  - apply Forall_forall. intros y Hy. apply H; [now left | now right].
Qed.

(** Groups laid one after another in key order give rows in key order. *)
Lemma groups_sorted {A : Type} (kf : A -> key) (g : key -> list A)
  (ks : list key) :
  StronglySorted (fun a b => key_leb a b = true) ks ->
  (forall k x, In k ks -> In x (g k) -> key_eqb (kf x) k = true) ->
  StronglySorted (fun x y => key_leb (kf x) (kf y) = true) (flat_map g ks).
Proof.
  intros Hs. induction Hs as [|a l Hl IH Ha]; intros Hg; [constructor|].
  cbn [flat_map]. apply StronglySorted_app.
  - apply all_related_sorted. intros x y Hx Hy.
    apply key_eqb_leb. eapply key_eqb_trans.
    + apply Hg; [now left | exact Hx].
    + rewrite key_eqb_sym. apply Hg; [now left | exact Hy].
  - apply IH. intros k x Hk. apply Hg. now right.
  - intros x y Hx Hy. apply in_flat_map in Hy. destruct Hy as [k [Hk Hy]].
    assert (Hxa : key_eqb (kf x) a = true) by (apply Hg; [now left|exact Hx]).
    assert (Hyk : key_eqb (kf y) k = true) by (apply Hg; [now right|exact Hy]).
    rewrite Forall_forall in Ha. specialize (Ha k Hk).
    destruct (key_eqb_notna _ _ Hxa) as [Nx Na].
    destruct (key_eqb_notna _ _ Hyk) as [Ny Nk].
    apply (key_leb_trans (kf x) a (kf y)); auto.
    + now apply key_eqb_leb.
    + apply (key_leb_trans a k (kf y)); auto.
      apply key_eqb_leb. now rewrite key_eqb_sym.
Qed.

Lemma StronglySorted_impl {A : Type} (R R' : A -> A -> Prop) (l : list A) :
  (forall x y, R x y -> R' x y) -> StronglySorted R l -> StronglySorted R' l.
Proof.
  intros H. induction 1 as [|a l Hl IH Ha]; constructor; [exact IH|].
  eapply Forall_impl; [|exact Ha]. intros y. apply H.
Qed.

Lemma canonical_key_of (df : DataFrame) (row : list cell) :
  canonical df -> key_of df row = row_key 0 2 row.
Proof.
  intros [_ [Hcols | Hcols]]; unfold key_of, cell_of; rewrite Hcols;
    reflexivity.
Qed.

(** C2, as amended: the enriched table of a canonical table has the rows
    of the input that have a country and a week, so as many rows as the
    input when none lacks them; the rows of each (country, week) group
    keep their input order and their input cells (the two metric cells
    coerced); the rows of the table follow the ascending order of the
    keys, not the input order. *)
Theorem rows_grouped_by_key (str_to_float : string -> option float)
  (df : DataFrame) :
  canonical df ->
  exists out,
    process_data str_to_float df = Enriched out /\
    (Forall (fun row => key_isna (key_of df row) = false) (data df) ->
     List.length (data out) = List.length (data df)) /\
    (forall k,
       map (firstn (List.length (columns df))) (group_of out k) =
       map (coerced_row str_to_float (columns df) 3 4) (group_of df k)) /\
    StronglySorted
      (fun r1 r2 => key_leb (key_of out r1) (key_of out r2) = true)
      (data out).
Proof.
  intros Hcan. pose proof (canonical_ready df Hcan) as Hready.
  destruct (enriched_table str_to_float df 0 2 3 4 Hready)
    as [out [Hok [Hkey [_ [_ [Hgroup [Hdata _]]]]]]].
  exists out. rewrite (canonical_process_data str_to_float df Hcan), Hok.
  split; [reflexivity|]. split; [|split].
  - intros Hall. rewrite Hdata.
    rewrite (enriched_rows_length str_to_float df 0 2 3 4 Hready).
    f_equal. apply forallb_filter_id. apply forallb_forall. intros row Hin.
    rewrite Forall_forall in Hall. specialize (Hall row Hin).
    rewrite (canonical_key_of df row Hcan) in Hall. now rewrite Hall.
  - intros k. rewrite Hgroup, (canonical_group_of df k Hcan).
    apply (enriched_group_cells str_to_float df 0 2 3 4 Hready).
  - rewrite Hdata. unfold enriched_rows.
    apply StronglySorted_impl with
      (R := fun r1 r2 => key_leb (row_key 0 2 r1) (row_key 0 2 r2) = true);
      [intros x y; now rewrite !Hkey|].
    apply groups_sorted; [apply group_keys_sorted|].
    intros k row Hk Hin.
    apply (with_shares_key str_to_float df 0 2 3 4 Hready) in Hin.
    + destruct Hin as [row3 [Hin3 [_ [-> _]]]].
      unfold group_rows in Hin3. apply filter_In in Hin3. tauto.
    + intros r Hr. unfold group_rows in Hr. apply filter_In in Hr. tauto.
Qed.

Lemma rows_grouped_by_key_witness :
  canonical later_week_first /\
  exists out, process_data read_integer later_week_first = Enriched out.
Proof.
  assert (Hcan : canonical later_week_first)
    by (split; [reflexivity | left; reflexivity]).
  split; [exact Hcan|].
  destruct (rows_grouped_by_key read_integer later_week_first Hcan)
    as [out [H _]].
  exists out. exact H.
Defined.

(** C2 fails as stated: with the later week first in the input, the
    enriched table has the two rows, in the other order. *)
Lemma groupby_reorders_rows :
  exists out,
    process_data read_integer later_week_first = Enriched out /\
    List.length (data out) = List.length (data later_week_first) /\
    map (firstn 5) (data out) = rev (data later_week_first) /\
    map (firstn 5) (data out) <> data later_week_first.
Proof.
  eexists. split; [vm_compute; reflexivity|].
  split; [reflexivity|]. split; [reflexivity|]. discriminate.
Qed.

(** ** The filters of [main] *)

Lemma boolean_index_rows (df : DataFrame) (p : list cell -> bool) :
  boolean_index df (map p (data df)) = mkDF (columns df) (filter p (data df)).
Proof.
  unfold boolean_index. f_equal.
  induction (data df) as [|row rows IH]; [reflexivity|].
  cbn [map combine filter fst]. destruct (p row); cbn [map snd]; now rewrite IH.
Qed.

Lemma filter_filter {A : Type} (p q : A -> bool) (l : list A) :
  filter q (filter p l) = filter (fun x => p x && q x) l.
Proof.
  induction l as [|x l IH]; [reflexivity|].
  cbn [filter]. destruct (p x); cbn [filter andb]; [|exact IH].
  destruct (q x); now rewrite IH.
Qed.

Lemma series_at (df : DataFrame) (name : string) (i : nat) :
  positions name (columns df) = [i] ->
  series df name = Ok (map (cell_of df name) (data df)).
Proof.
  intros H. unfold series, cell_of, position, column_at. now rewrite H.
Qed.

Lemma positions_in_columns (name : string) (cols : list label) :
  in_columns name cols = true -> positions name cols <> [].
Proof.
  intros H Hnil. apply existsb_exists in H. destruct H as [c [Hin Hc]].
  unfold positions in Hnil. revert Hnil. generalize 0%nat.
  induction cols as [|c' rest IH]; intros k; [contradiction|].
  cbn [positions_from]. destruct Hin as [->|Hin].
  - rewrite Hc. discriminate.
  - destruct (cell_eqb (CStr name) c'); [discriminate | now apply IH].
Qed.

(** X1: the filters keep exactly the rows that pass them, in the order of
    the table, and leave the columns as they are. *)
Theorem apply_filters_rows (df : DataFrame)
  (selected_countries selected_psps selected_payment_options : list cell)
  (ic ip : nat) :
  positions "country" (columns df) = [ic] ->
  positions "psp" (columns df) = [ip] ->
  (List.length (positions "payment_option" (columns df)) <= 1)%nat ->
  apply_filters df selected_countries selected_psps selected_payment_options =
  Ok (mkDF (columns df)
           (filter (passes_filters df selected_countries selected_psps
                                   selected_payment_options)
                   (data df))).
Proof.
  intros Hc Hp Ho. unfold apply_filters.
  rewrite (series_at df "country" ic Hc), (series_at df "psp" ip Hp).
  cbn [bind]. rewrite !map_map, map2_maps.
  rewrite (boolean_index_rows df
             (fun row => isin selected_countries (cell_of df "country" row)
                         && isin selected_psps (cell_of df "psp" row))).
  unfold passes_filters.
  destruct selected_payment_options as [|o os].
  - f_equal. f_equal. apply filter_ext. intros row. now rewrite andb_true_r.
  - cbn [columns].
    destruct (in_columns "payment_option" (columns df)) eqn:Hin.
    + destruct (positions "payment_option" (columns df)) as [|io [|? ?]]
        eqn:Hpos.
      * exfalso. now apply (positions_in_columns _ _ Hin).
      * set (df1 := mkDF (columns df) _).
        rewrite (series_at df1 "payment_option" io Hpos). cbn [bind].
        rewrite map_map.
        rewrite (boolean_index_rows df1
                   (fun row => isin (o :: os) (cell_of df1 "payment_option" row)
                               || cell_isna (cell_of df1 "payment_option" row))).
        unfold df1. cbn [columns data]. rewrite filter_filter. reflexivity.
      * cbn [List.length] in Ho. lia.
    + f_equal. f_equal. apply filter_ext. intros row. now rewrite andb_true_r.
Qed.

Lemma apply_filters_rows_witness :
  apply_filters with_payment_options [S_ "US"] [S_ "PayPal"; S_ "Stripe"]
                [S_ "wallet"] =
  Ok (mkDF (columns with_payment_options)
           [ [S_ "US"; S_ "Stripe"; S_ "W1"; N 50; N 10; CNum NaN] ]).
Proof.
  rewrite (apply_filters_rows with_payment_options _ _ _ 0 1);
    [reflexivity | reflexivity | reflexivity | simpl; lia].
Defined.

Lemma same_value_refl (c : cell) : same_value c c = true.
Proof.
  unfold same_value. destruct (cell_isna c) eqn:H.
  - now rewrite orb_true_r.
  - now rewrite cell_eqb_refl.
Qed.

Lemma isin_unique_from (seen cells : list cell) (c : cell) :
  In c cells ->
  isin seen c = true \/ isin (unique_from seen cells) c = true.
Proof.
  revert seen. induction cells as [|c' rest IH]; intros seen Hin;
    [contradiction|].
  cbn [unique_from]. destruct (isin seen c') eqn:Hseen.
  - destruct Hin as [->|Hin]; [now left | now apply IH].
  - destruct Hin as [->|Hin].
    + right. cbn [isin existsb]. now rewrite same_value_refl.
    + destruct (IH (c' :: seen) Hin) as [H|H].
      * cbn [isin existsb] in H. apply orb_true_iff in H.
        destruct H as [H|H]; [|now left].
        right. cbn [isin existsb]. now rewrite H.
      * right. cbn [isin existsb]. unfold isin in H. rewrite H.
        apply orb_true_r.
Qed.

Lemma isin_unique (cells : list cell) (c : cell) :
  In c cells -> isin (unique cells) c = true.
Proof.
  intros Hin. destruct (isin_unique_from [] cells c Hin) as [H|H];
    [discriminate | exact H].
Qed.

(** X2: with the selections the widgets start with (every country, every
    PSP, no payment option) the filters keep the whole table. *)
Theorem default_filters_keep_all (df : DataFrame) (ic ip : nat) :
  positions "country" (columns df) = [ic] ->
  positions "psp" (columns df) = [ip] ->
  (List.length (positions "payment_option" (columns df)) <= 1)%nat ->
  apply_filters df (default_countries df) (default_psps df) [] = Ok df.
Proof.
  intros Hc Hp Ho. rewrite (apply_filters_rows df _ _ _ ic ip Hc Hp Ho).
  rewrite forallb_filter_id; [now destruct df|].
  apply forallb_forall. intros row Hin. unfold passes_filters.
  rewrite andb_true_r. apply andb_true_iff. split.
  - apply isin_unique. now apply in_map.
  - apply isin_unique. now apply in_map.
Qed.

Lemma default_filters_keep_all_witness :
  apply_filters with_payment_options (default_countries with_payment_options)
                (default_psps with_payment_options) [] =
  Ok with_payment_options.
Proof.
  apply (default_filters_keep_all with_payment_options 0 1);
    [reflexivity | reflexivity | simpl; lia].
Defined.

(** X3: a row without a payment option is never removed by the payment
    option filter, whatever options are selected. *)
Theorem missing_payment_option_passes (df : DataFrame)
  (selected_countries selected_psps selected_payment_options : list cell)
  (ic ip : nat) (row : list cell) :
  positions "country" (columns df) = [ic] ->
  positions "psp" (columns df) = [ip] ->
  (List.length (positions "payment_option" (columns df)) <= 1)%nat ->
  In row (data df) ->
  isin selected_countries (cell_of df "country" row) = true ->
  isin selected_psps (cell_of df "psp" row) = true ->
  cell_isna (cell_of df "payment_option" row) = true ->
  exists out,
    apply_filters df selected_countries selected_psps
                  selected_payment_options = Ok out /\
    In row (data out).
Proof.
  intros Hc Hp Ho Hin Hsc Hsp Hna.
  rewrite (apply_filters_rows df _ _ _ ic ip Hc Hp Ho).
  eexists. split; [reflexivity|]. cbn [data]. apply filter_In.
  split; [exact Hin|]. unfold passes_filters. rewrite Hsc, Hsp, Hna.
  cbn [andb]. destruct selected_payment_options; [reflexivity|].
  destruct (in_columns "payment_option" (columns df)); [|reflexivity].
  apply orb_true_r.
Qed.

Lemma missing_payment_option_passes_witness :
  exists out,
    apply_filters with_payment_options [S_ "US"] [S_ "Stripe"] [S_ "wallet"]
      = Ok out /\
    In [S_ "US"; S_ "Stripe"; S_ "W1"; N 50; N 10; CNum NaN] (data out).
Proof.
  apply (missing_payment_option_passes with_payment_options _ _ _ 0 1).
  - reflexivity.
  - reflexivity.
  - apply le_n.
  - right. left. reflexivity.
  - reflexivity.
  - reflexivity.
  - reflexivity.
Defined.

(** ** Charts *)

Section ChartFacts.

Variable colors : list string.
Variable str_of_float : float -> string.



Variable chart_data : DataFrame.
Variables ic ip iw im : nat.
Variable m : metric.
Hypothesis Hcountry : positions "country" (columns chart_data) = [ic].
Hypothesis Hpsp : positions "psp" (columns chart_data) = [ip].
Hypothesis Hweek : positions "week" (columns chart_data) = [iw].
Hypothesis Hmetric : positions (metric_column m) (columns chart_data) = [im].
Hypothesis Hcolors : colors <> [].

Lemma select_equal_rows (df : DataFrame) (name : string) (i : nat)
  (value : cell) :
  positions name (columns df) = [i] ->
  select_equal df name value =
  Ok (mkDF (columns df)
           (filter (fun row => cell_eqb (cell_of df name row) value)
                   (data df))).
Proof.
  intros H. unfold select_equal. rewrite (series_at df name i H).
  cbn [bind]. rewrite map_map.
  now rewrite (boolean_index_rows df
                 (fun row => cell_eqb (cell_of df name row) value)).
Qed.

Lemma pick_color_ok (i : nat) :
  exists c, pick_color colors i = Ok c /\ In c colors.
Proof.
  unfold pick_color. destruct colors as [|c0 rest] eqn:Hc;
    [contradiction|].
  eexists. split; [reflexivity|]. apply nth_In.
  apply Nat.mod_upper_bound. discriminate.
Qed.

Lemma chart_pair_ok (i : nat) (psp country : cell) (chart_type : string)
  (fig : list trace) :
  exists fig',
    chart_pair colors str_of_float chart_data i psp country m chart_type fig
    = Ok fig' /\
    (fig' = fig \/ exists t, fig' = fig ++ [t] /\ (good_trace colors) t).
Proof.
  unfold chart_pair.
  rewrite (select_equal_rows chart_data "country" ic country Hcountry).
  cbn [bind].
  set (country_data := mkDF (columns chart_data) _).
  rewrite (select_equal_rows country_data "psp" ip psp Hpsp).
  cbn [bind columns data].
  destruct (filter _ (data country_data)) as [|row rest] eqn:Hrows.
  - eexists. split; [reflexivity | now left].
  - destruct (pick_color_ok i) as [c [Hc Hin]]. rewrite Hc. cbn [bind].
    match goal with
    | |- context [series ?d "week"] => set (psp_data := d)
    end.
    rewrite (series_at psp_data "week" iw Hweek).
    rewrite (series_at psp_data (metric_column m) im Hmetric).
    cbn [bind].
    destruct (String.eqb chart_type "line");
      [|destruct (String.eqb chart_type "bar")];
      try (eexists; split; [reflexivity|]; right; eexists;
           split; [reflexivity|];
           unfold good_trace; cbn [x y color];
           rewrite !length_map; repeat split; [discriminate | exact Hin]).
    eexists. split; [reflexivity | now left].
Qed.

Lemma chart_countries_ok (i : nat) (psp : cell) (countries : list cell)
  (chart_type : string) (fig : list trace) :
  exists new,
    chart_countries colors str_of_float chart_data i psp countries m
                    chart_type fig = Ok (fig ++ new) /\
    (List.length new <= List.length countries)%nat /\
    Forall (good_trace colors) new.
Proof.
  revert fig. induction countries as [|country rest IH]; intros fig.
  - exists []. rewrite app_nil_r. repeat split; [apply le_n | constructor].
  - cbn [chart_countries].
    destruct (chart_pair_ok i psp country chart_type fig)
      as [fig' [Hok Hfig]].
    rewrite Hok. cbn [bind]. destruct (IH fig') as [new [Hn [Hlen Hgood]]].
    destruct Hfig as [-> | [t [-> Ht]]].
    + exists new. split; [exact Hn|]. split; [cbn [List.length]; lia|].
      exact Hgood.
    + exists (t :: new). rewrite <- app_assoc in Hn. split; [exact Hn|].
      split; [cbn [List.length]; lia | now constructor].
Qed.

Lemma chart_psps_ok (i : nat) (psps countries : list cell)
  (chart_type : string) (fig : list trace) :
  exists new,
    chart_psps colors str_of_float chart_data i psps countries m
               chart_type fig = Ok (fig ++ new) /\
    (List.length new <= List.length psps * List.length countries)%nat /\
    Forall (good_trace colors) new.
Proof.
  revert i fig. induction psps as [|psp rest IH]; intros i fig.
  - exists []. rewrite app_nil_r. repeat split; [apply le_n | constructor].
  - cbn [chart_psps].
    destruct (chart_countries_ok i psp countries chart_type fig)
      as [new1 [Hok [Hlen1 Hgood1]]].
    rewrite Hok. cbn [bind].
    destruct (IH (S i) (fig ++ new1)) as [new2 [Hn [Hlen2 Hgood2]]].
    exists (new1 ++ new2). rewrite app_assoc. split; [exact Hn|].
    split.
    + rewrite length_app. cbn [List.length]. lia.
    + apply Forall_app. now split.
Qed.

(** X6: on a table that has the columns it reads, with a metric that is
    not a percentage, [create_chart] returns a figure; it holds at most
    one trace for each pair of a PSP and a country, every trace has as
    many x values as y values, at least one, and a colour of the
    palette. *)
Theorem create_chart_traces (countries psps : list cell)
  (chart_type : string) :
  metric_format m <> "percentage" ->
  exists fig,
    create_chart colors str_of_float chart_data countries psps m chart_type
    = Ok fig /\
    (List.length (traces fig)
     <= List.length psps * List.length countries)%nat /\
    Forall (good_trace colors) (traces fig) /\
    title fig = metric_title m /\ xaxis_title fig = "Week".
Proof.
  intros Hf. unfold create_chart.
  destruct (chart_psps_ok 0 psps countries chart_type [])
    as [new [Hok [Hlen Hgood]]].
  rewrite Hok. cbn [bind app].
  destruct (String.eqb (metric_format m) "percentage") eqn:He.
  - apply String.eqb_eq in He. contradiction.
  - eexists. split; [reflexivity|]. cbn [traces title xaxis_title].
    repeat split; assumption.
Qed.

(** X7: rows whose PSP is missing are never drawn: for the missing value
    as the PSP no trace is added. *)
Theorem missing_psp_not_drawn (i : nat) (countries : list cell)
  (chart_type : string) (fig : list trace) :
  chart_countries colors str_of_float chart_data i (CNum NaN) countries m
                  chart_type fig = Ok fig.
Proof.
  induction countries as [|country rest IH]; [reflexivity|].
  cbn [chart_countries]. unfold chart_pair.
  rewrite (select_equal_rows chart_data "country" ic country Hcountry).
  cbn [bind].
  set (country_data := mkDF (columns chart_data) _).
  rewrite (select_equal_rows country_data "psp" ip (CNum NaN) Hpsp).
  cbn [bind columns].
  replace (filter (fun row => cell_eqb (cell_of country_data "psp" row)
                                       (CNum NaN)) (data country_data))
    with (@nil (list cell)); [exact IH|].
  symmetry. rewrite <- (filter_false (data country_data)).
  apply filter_ext. intros row. rewrite cell_eqb_sym.
  destruct (cell_of country_data "psp" row) as [[| | |]|]; reflexivity.
Qed.

End ChartFacts.


Lemma create_chart_traces_witness :
  exists fig,
    create_chart Set3 no_number_text enriched_two_psps [S_ "US"]
                 [S_ "PayPal"; S_ "Stripe"] press_buy_metric "line" = Ok fig /\
    (List.length (traces fig) <= 2 * 1)%nat.
Proof.
  destruct (create_chart_traces Set3 no_number_text enriched_two_psps
              0 1 2 3 press_buy_metric eq_refl eq_refl eq_refl eq_refl
              ltac:(discriminate) [S_ "US"] [S_ "PayPal"; S_ "Stripe"] "line"
              ltac:(discriminate)) as [fig [H [Hlen _]]].
  exists fig. split; [exact H | exact Hlen].
Defined.

Lemma missing_psp_not_drawn_witness :
  chart_countries Set3 no_number_text enriched_two_psps 0 (CNum NaN)
                  [S_ "US"] press_buy_metric "line" [] = Ok [].
Proof.
  apply (missing_psp_not_drawn Set3 no_number_text enriched_two_psps 0 1
           press_buy_metric eq_refl eq_refl).
Defined.

(** ** More on the enriched table *)

(** X8: the enriched table of a canonical table has exactly as many rows
    as the input has rows with both a country and a week: the rows that
    lack one are dropped by the grouping. *)
Theorem rows_without_key_dropped (str_to_float : string -> option float)
  (df : DataFrame) :
  canonical df ->
  exists out,
    process_data str_to_float df = Enriched out /\
    List.length (data out) =
    List.length
      (filter (fun row => negb (key_isna (key_of df row))) (data df)).
Proof.
  intros Hcan. pose proof (canonical_ready df Hcan) as Hready.
  destruct (enriched_table str_to_float df 0 2 3 4 Hready)
    as [out [Hok [_ [_ [_ [_ [Hdata _]]]]]]].
  exists out. rewrite (canonical_process_data str_to_float df Hcan), Hok.
  split; [reflexivity|]. rewrite Hdata.
  rewrite (enriched_rows_length str_to_float df 0 2 3 4 Hready).
  f_equal. apply filter_ext. intros row.
  now rewrite (canonical_key_of df row Hcan).
Qed.

Lemma rows_without_key_dropped_witness :
  exists out,
    process_data read_integer missing_keys = Enriched out /\
    List.length (data out) = 1%nat.
Proof.
  destruct (rows_without_key_dropped read_integer missing_keys)
    as [out [H Hlen]].
  - split; [reflexivity | left; reflexivity].
  - exists out. split; [exact H | exact Hlen].
Defined.

(** X9: on a canonical table without rows [process_data] returns a table
    without rows that has the [conversion_rate] column and neither of the
    two share columns: no group is ever passed to [calculate_shares]. *)
Theorem empty_table_has_no_share_columns
  (str_to_float : string -> option float) (df : DataFrame) :
  canonical df ->
  data df = [] ->
  process_data str_to_float df =
  Enriched (mkDF (columns df ++ [CStr "conversion_rate"]) []).
Proof.
  intros Hcan Hempty. pose proof (canonical_ready df Hcan) as Hready.
  rewrite (canonical_process_data str_to_float df Hcan).
  rewrite (compute_metrics_closed str_to_float df 0 2 3 4 Hready).
  now rewrite Hempty.
Qed.

Lemma empty_table_has_no_share_columns_witness :
  process_data read_integer no_rows =
  Enriched (mkDF (canonical_columns ++ [CStr "conversion_rate"]) []).
Proof.
  apply (empty_table_has_no_share_columns read_integer no_rows).
  - split; [reflexivity | left; reflexivity].
  - reflexivity.
Defined.


Section EnrichedRate.

Variable str_to_float : string -> option float.
Variable df : DataFrame.
Variables ic iw ip iv : nat.
Hypothesis Hready : ready df ic iw ip iv.


End EnrichedRate.



(** ** Bounds of the shares *)









(** ** More on the resolver *)

Lemma fuzzy_match_first (p : string) (cols : list label) (col : label) :
  fuzzy_match p cols = Ok (Some col) ->
  exists before after,
    cols = before ++ col :: after /\
    header_matches p col = true /\
    Forall (fun c => is_text c = true /\ header_matches p c = false) before.
Proof.
  induction cols as [|c rest IH]; simpl; [discriminate|].
  destruct c as [v|s]; [discriminate|].
  destruct (contains (lower p) (lower s) || contains (lower s) (lower p))
    eqn:Hm.
  - intros H. injection H as <-. exists [], rest.
    repeat split; [exact Hm | constructor].
  - intros H. destruct (IH H) as [before [after [-> [Hc Hb]]]].
    exists (CStr s :: before), after. repeat split; [exact Hc|].
    constructor; [|exact Hb]. split; [reflexivity | exact Hm].
Qed.

Lemma fuzzy_match_none (p : string) (cols : list label) :
  fuzzy_match p cols = Ok None ->
  forall c, In c cols -> header_matches p c = false.
Proof.
  induction cols as [|c rest IH]; simpl; [intros _ c []|].
  destruct c as [v|s]; [discriminate|].
  destruct (contains (lower p) (lower s) || contains (lower s) (lower p))
    eqn:Hm; [discriminate|].
  intros H c [<-|Hin]; [exact Hm | now apply IH].
Qed.

Lemma fuzzy_match_some (p : string) (cols : list label) (c : label) :
  all_text cols = true -> In c cols -> header_matches p c = true ->
  exists col, fuzzy_match p cols = Ok (Some col).
Proof.
  intros Ht Hin Hm.
  destruct (fuzzy_match_text p cols Ht) as [[col|] Hr]; [now exists col|].
  rewrite (fuzzy_match_none p cols Hr c Hin) in Hm. discriminate.
Qed.

Lemma resolve_bound (names : list string) (cols : list label) :
  all_text cols = true ->
  exists r,
    resolve names cols = Ok r /\
    (r <> None <->
     exists p c, In p names /\ In c cols /\
                 (c = CStr p \/ header_matches p c = true)).
Proof.
  intros Ht. induction names as [|p rest IH]; simpl.
  - exists None. split; [reflexivity|]. split; [congruence|].
    intros [p [c [[] _]]].
  - destruct (in_columns p cols) eqn:Hex.
    + eexists. split; [reflexivity|]. split; [|discriminate].
      intros _. exists p, (CStr p). split; [now left|].
      split; [now apply in_columns_In | now left].
    + destruct (fuzzy_match_text p cols Ht) as [[col|] Hf]; rewrite Hf; simpl.
      * eexists. split; [reflexivity|]. split; [|discriminate].
        intros _. destruct (fuzzy_match_first p cols col Hf)
          as [before [after [-> [Hm _]]]].
        exists p, col. split; [now left|]. split; [|now right].
        apply in_or_app. right. now left.
      * destruct IH as [r [Hr Hiff]]. exists r. split; [exact Hr|].
        rewrite Hiff. split.
        -- intros [q [c [Hq Hc]]]. exists q, c. split; [now right | exact Hc].
        -- intros [q [c [[<-|Hq] [Hc Hm]]]].
           ++ exfalso. destruct Hm as [->|Hm].
              ** apply In_in_columns in Hc. congruence.
              ** rewrite (fuzzy_match_none p cols Hf c Hc) in Hm. discriminate.
           ++ now exists q, c.
Qed.

(** X12: on text headers a canonical field is bound exactly when some
    header equals one of its candidate names, or contains one or is
    contained in one, case ignored; otherwise the field is left out of the
    mapping. *)
Theorem field_bound_iff_some_match (df : DataFrame) (field : string)
  (names : list string) :
  all_text (columns df) = true ->
  In (field, names) column_mapping ->
  exists d,
    detect_columns df = Ok d /\
    (bound field d = true <->
     exists p c, In p names /\ In c (columns df) /\
                 (c = CStr p \/ header_matches p c = true)).
Proof.
  intros Ht Hin.
  destruct (detect_loop_text column_mapping (columns df) [] Ht) as [d Hd].
  exists d. split; [exact Hd|].
  destruct (detect_loop_lookup _ _ _ _ _ _ Hd column_mapping_keys_NoDup Hin
              eq_refl) as [r [Hr Hl]].
  destruct (resolve_bound names (columns df) Ht) as [r' [Hr' Hiff]].
  rewrite Hr in Hr'. injection Hr' as <-.
  rewrite <- Hiff. unfold bound. rewrite Hl.
  destruct r; split; congruence.
Qed.

Lemma field_bound_iff_some_match_witness :
  exists d,
    detect_columns substring_headers = Ok d /\ bound "psp" d = true.
Proof.
  destruct (field_bound_iff_some_match substring_headers "psp"
              ["psp"; "PSP"; "payment service provider"; "Payment Provider";
               "provider"; "Provider"]) as [d [Hd Hiff]].
  - reflexivity.
  - simpl. tauto.
  - exists d. split; [exact Hd|]. apply Hiff.
    exists "provider", (CStr "provider").
    split; [simpl; tauto|]. split; [simpl; tauto | now left].
Defined.

(** X13: among the headers that match a candidate as a substring, the
    first one in header order is taken: every header before the one
    returned is a text that does not match. *)
Theorem fuzzy_match_takes_first (p : string) (cols : list label)
  (col : label) :
  fuzzy_match p cols = Ok (Some col) ->
  exists before after,
    cols = before ++ col :: after /\
    header_matches p col = true /\
    Forall (fun c => is_text c = true /\ header_matches p c = false) before.
Proof.
  apply fuzzy_match_first.
Qed.

Lemma fuzzy_match_takes_first_witness :
  exists before after,
    columns substring_headers = before ++ CStr "Provider name" :: after /\
    header_matches "provider" (CStr "Provider name") = true /\
    Forall (fun c => is_text c = true /\ header_matches "provider" c = false)
           before.
Proof.
  apply (fuzzy_match_takes_first "provider" (columns substring_headers)
           (CStr "Provider name")).
  reflexivity.
Defined.

(** ** Renaming the columns *)

Lemma text_eqb_false (a b : label) :
  is_text a = true -> a <> b -> cell_eqb a b = false.
Proof.
  destruct a as [v|s]; [discriminate|]. intros _ Hne.
  destruct b as [w|t]; [reflexivity|]. simpl.
  apply String.eqb_neq. congruence.
Qed.

Lemma text_eqb_refl (a : label) : is_text a = true -> cell_eqb a a = true.
Proof.
  destruct a as [v|s]; [discriminate|]. intros _. apply String.eqb_refl.
Qed.

Lemma text_eqb_eq (a b : label) :
  is_text a = true -> cell_eqb a b = true -> a = b.
Proof.
  destruct a as [v|s]; [discriminate|]. intros _.
  destruct b as [w|t]; simpl; [discriminate|].
  intros H. apply String.eqb_eq in H. now subst.
Qed.

Lemma dict_get_set_same (k : label) (v : string) (d : list (label * string)) :
  is_text k = true ->
  Forall (fun kv => is_text (fst kv) = true) d ->
  dict_get k (dict_set k v d) = Some v.
Proof.
  intros Hk. induction 1 as [|[k' v'] rest Hk' _ IH]; simpl.
  - now rewrite text_eqb_refl.
  - destruct (cell_eqb k' k) eqn:He; simpl; rewrite He; [reflexivity|].
    exact IH.
Qed.

Lemma dict_get_set_other (k k' : label) (v : string)
  (d : list (label * string)) :
  is_text k = true -> is_text k' = true -> k <> k' ->
  Forall (fun kv => is_text (fst kv) = true) d ->
  dict_get k' (dict_set k v d) = dict_get k' d.
Proof.
  intros Hk Hk' Hne. induction 1 as [|[k0 v0] rest Hk0 _ IH]; simpl.
  - now rewrite text_eqb_false.
  - simpl in Hk0. destruct (cell_eqb k0 k) eqn:He; simpl.
    + apply text_eqb_eq in He; [|exact Hk0]. subst k0.
      now rewrite (text_eqb_false k k' Hk Hne).
    + destruct (cell_eqb k0 k'); [reflexivity | exact IH].
Qed.

Lemma dict_set_text (k : label) (v : string) (d : list (label * string)) :
  is_text k = true ->
  Forall (fun kv => is_text (fst kv) = true) d ->
  Forall (fun kv => is_text (fst kv) = true) (dict_set k v d).
Proof.
  intros Hk. induction 1 as [|[k0 v0] rest Hk0 Hrest IH]; simpl.
  - now repeat constructor.
  - destruct (cell_eqb k0 k); constructor; assumption.
Qed.

Lemma invert_keeps (d : detected) (acc : list (label * string)) (v : label) :
  is_text v = true ->
  Forall (fun kv => is_text (snd kv) = true) d ->
  Forall (fun kv => is_text (fst kv) = true) acc ->
  ~ In v (map snd d) ->
  dict_get v (fold_left (fun a kv => dict_set (snd kv) (fst kv) a) d acc) =
  dict_get v acc.
Proof.
  intros Hv Hd. revert acc. induction Hd as [|[k0 v0] rest Hv0 _ IH];
    intros acc Hacc Hnotin; [reflexivity|].
  simpl in *. rewrite IH.
  - apply dict_get_set_other; auto.
  - now apply dict_set_text.
  - tauto.
Qed.

Lemma invert_lookup (d : detected) (acc : list (label * string))
  (k : string) (v : label) :
  Forall (fun kv => is_text (snd kv) = true) d ->
  Forall (fun kv => is_text (fst kv) = true) acc ->
  NoDup (map snd d) ->
  In (k, v) d ->
  dict_get v (fold_left (fun a kv => dict_set (snd kv) (fst kv) a) d acc) =
  Some k.
Proof.
  intros Hd. revert acc. induction Hd as [|[k0 v0] rest Hv0 Hrest IH];
    intros acc Hacc Hnd Hin; [contradiction|].
  simpl in *. inversion Hnd as [|? ? Hnotin Hnd']; subst.
  destruct Hin as [Heq|Hin].
  - injection Heq as -> ->.
    rewrite invert_keeps; auto.
    + now apply dict_get_set_same.
    + now apply dict_set_text.
  - apply IH; auto. now apply dict_set_text.
Qed.

Lemma resolve_text_value (names : list string) (cols : list label)
  (c : label) :
  resolve names cols = Ok (Some c) -> is_text c = true.
Proof.
  induction names as [|p rest IH]; simpl; [discriminate|].
  destruct (in_columns p cols).
  - intros H. now injection H as <-.
  - destruct (fuzzy_match p cols) as [[col|]|e] eqn:Hf; simpl;
      [|exact IH|discriminate].
    intros H. injection H as <-.
    destruct (fuzzy_match_first p cols col Hf) as [_ [_ [_ [Hm _]]]].
    now destruct col.
Qed.

Lemma detect_loop_values_text (mapping : list (string * list string))
  (cols : list label) (acc d : detected) :
  detect_loop mapping cols acc = Ok d ->
  Forall (fun kv => is_text (snd kv) = true) acc ->
  Forall (fun kv => is_text (snd kv) = true) d.
Proof.
  revert acc. induction mapping as [|[t names] rest IH]; intros acc; simpl.
  - intros H. now injection H as <-.
  - destruct (resolve names cols) as [[c|]|e] eqn:Hr; simpl;
      [| apply IH | discriminate].
    intros H Hacc. apply (IH _ H). apply Forall_app. split; [exact Hacc|].
    constructor; [|constructor]. simpl. eapply resolve_text_value; eassumption.
Qed.

(** X14: when the resolver binds different fields to different headers,
    the renaming gives every bound field its column: the inverted mapping
    sends each bound header back to its field and the renamed table has a
    column of that name, so the KeyError of a shared header cannot
    occur. *)
Theorem injective_mapping_renames_all (df : DataFrame) (d : detected) :
  detect_columns df = Ok d ->
  NoDup (map snd d) ->
  forall k v, In (k, v) d ->
    dict_get v (invert d) = Some k /\
    in_columns k (columns (rename df (invert d))) = true.
Proof.
  intros Hd Hnd k v Hin.
  assert (Htext : Forall (fun kv => is_text (snd kv) = true) d)
    by (apply (detect_loop_values_text _ _ _ _ Hd); constructor).
  assert (Hget : dict_get v (invert d) = Some k)
    by (apply invert_lookup; auto).
  split; [exact Hget|].
  apply detect_loop_shape in Hd. destruct Hd as [new [-> [Hnew _]]].
  simpl in Hin. destruct (Hnew k v Hin) as [_ Hv].
  apply In_in_columns. unfold rename. cbn [columns].
  apply in_map_iff. exists v. now rewrite Hget.
Qed.

Lemma injective_mapping_renames_all_witness :
  in_columns "week"
    (columns (rename synonym_headers
                (invert [("country", CStr "market"); ("psp", CStr "provider");
                         ("week", CStr "date"); ("press_buy", CStr "buys");
                         ("converted", CStr "conversions")]))) = true.
Proof.
  refine (proj2 (injective_mapping_renames_all synonym_headers _ eq_refl _
                   "week" (CStr "date") _)).
  - repeat constructor; simpl; intuition discriminate.
  - simpl. tauto.
Defined.

(** ** The launcher *)

Section LauncherFacts.

Variable import_module : string -> import_result.
Variable pip_install : list string -> bool.
Variable run_streamlit : run_result.

Lemma find_missing_spec (packages acc : list string) :
  (exists p, In p packages /\
             import_module (replace_dash p) = ImportCrashed) \/
  find_missing import_module packages acc =
  Some (acc ++ filter (fun p => match import_module (replace_dash p) with
                                | ImportError => true
                                | _ => false
                                end) packages).
Proof.
  revert acc. induction packages as [|p rest IH]; intros acc.
  - right. simpl. now rewrite app_nil_r.
  - cbn [find_missing filter].
    destruct (import_module (replace_dash p)) eqn:Hp.
    + destruct (IH acc) as [[q [Hq Hc]]|H]; [left|right; exact H].
      exists q. split; [now right | exact Hc].
    + destruct (IH (acc ++ [p])) as [[q [Hq Hc]]|H]; [left|right].
      * exists q. split; [now right | exact Hc].
      * rewrite H. now rewrite <- app_assoc.
    + left. exists p. split; [now left | exact Hp].
Qed.

(** X15: when no import raises anything but ImportError,
    [check_dependencies] does nothing if every required package imports;
    otherwise it runs pip once, for the failing packages in the order of
    the list, and it returns exactly when pip succeeds. *)
Theorem pip_installs_the_missing_packages :
  (forall p, In p required_packages ->
             import_module (replace_dash p) <> ImportCrashed) ->
  (failing_imports import_module = [] ->
     check_dependencies import_module pip_install = ([], Returned)) /\
  (failing_imports import_module <> [] ->
     filter is_pip_install
            (fst (check_dependencies import_module pip_install))
       = [PipInstall (failing_imports import_module)] /\
     (snd (check_dependencies import_module pip_install) = Returned <->
      pip_install (failing_imports import_module) = true)).
Proof.
  intros Hno. unfold check_dependencies.
  destruct (find_missing_spec required_packages []) as [[p [Hp Hc]]|H].
  - exfalso. exact (Hno p Hp Hc).
  - rewrite H. cbn [app]. fold (failing_imports import_module).
    destruct (failing_imports import_module) as [|m ms].
    + split; [reflexivity | congruence].
    + split; [discriminate|]. intros _.
      destruct (pip_install (m :: ms)); cbn [fst snd filter is_pip_install];
        split; try reflexivity; split; congruence.
Qed.

(** X16: the launcher starts the application exactly when the dependency
    check returns, and then once; once the application is started the
    launcher returns whatever becomes of it (an interrupt and a failure of
    the run are caught). *)
Theorem streamlit_started_iff_dependencies_ok :
  snd (launcher_main import_module pip_install run_streamlit) =
  snd (check_dependencies import_module pip_install) /\
  (snd (check_dependencies import_module pip_install) = Returned ->
     filter is_streamlit_run
            (fst (launcher_main import_module pip_install run_streamlit))
       = [StreamlitRun]) /\
  (snd (check_dependencies import_module pip_install) = Uncaught ->
     ~ In StreamlitRun
          (fst (launcher_main import_module pip_install run_streamlit))).
Proof.
  unfold launcher_main.
  assert (Hcheck : forall e,
            In e (fst (check_dependencies import_module pip_install)) ->
            is_streamlit_run e = false).
  { intros e. unfold check_dependencies.
    destruct (find_missing import_module required_packages []) as [[|m ms]|];
      cbn [fst]; try (intros []).
    destruct (pip_install (m :: ms)); cbn [fst In];
      intros H; repeat (destruct H as [<-|H]; [reflexivity|]); contradiction. }
  destruct (check_dependencies import_module pip_install)
    as [checked [|]]; cbn [fst snd] in *.
  - split; [reflexivity|]. split; [|discriminate]. intros _.
    cbn [app filter is_streamlit_run]. rewrite !filter_app.
    replace (filter is_streamlit_run checked) with (@nil launcher_event).
    + cbn [filter app is_streamlit_run]. destruct run_streamlit; reflexivity.
    + symmetry. rewrite <- (filter_false checked). apply filter_ext_in.
      exact Hcheck.
  - split; [reflexivity|]. split; [discriminate|]. intros _ Hin.
    cbn [app In] in Hin. destruct Hin as [Hin|Hin]; [discriminate|].
    specialize (Hcheck _ Hin). discriminate.
Qed.

End LauncherFacts.

Lemma pip_installs_the_missing_packages_witness :
  filter is_pip_install (fst (check_dependencies two_missing (fun _ => true)))
  = [PipInstall ["plotly"; "xlrd"]].
Proof.
  refine (proj1 (proj2 (pip_installs_the_missing_packages two_missing
                          (fun _ => true) _) _)).
  - intros p Hp. unfold two_missing. destruct (_ || _); discriminate.
  - discriminate.
Defined.

(** ** From the processed table to the filters and the charts *)

Lemma canonical_enriched_columns (str_to_float : string -> option float)
  (df : DataFrame) :
  canonical df ->
  exists out,
    compute_metrics str_to_float df = Ok out /\
    positions "country" (columns out) = [0%nat] /\
    positions "psp" (columns out) = [1%nat] /\
    positions "week" (columns out) = [2%nat] /\
    positions "press_buy" (columns out) = [3%nat] /\
    positions "converted" (columns out) = [4%nat] /\
    (List.length (positions "payment_option" (columns out)) <= 1)%nat.
Proof.
  intros Hcan. pose proof (canonical_ready df Hcan) as Hready.
  rewrite (compute_metrics_closed str_to_float df 0 2 3 4 Hready).
  eexists. split; [reflexivity|].
  destruct Hcan as [_ Hcols].
  destruct (group_keys 0 2 _) as [|k ks]; cbn [map concat_frames columns];
    destruct Hcols as [-> | ->]; repeat split; try reflexivity;
    cbn; lia.
Qed.

(** X17: the table [process_data] returns for a canonical table is one the
    rest of [main] can work on: the default filters give it back
    unchanged, and the charts of the two count metrics are drawn for any
    selection of countries and PSPs. *)
Theorem enriched_table_filters_and_charts
  (str_to_float : string -> option float) (str_of_float : float -> string)
  (df : DataFrame) (countries psps : list cell) :
  canonical df ->
  exists out press_buy_chart converted_chart,
    process_data str_to_float df = Enriched out /\
    apply_filters out (default_countries out) (default_psps out) [] = Ok out /\
    create_chart Set3 str_of_float out countries psps
                 (mkMetric "press_buy" "Press Buy Count" "Press Buy Count"
                           "number" "line") "line" = Ok press_buy_chart /\
    create_chart Set3 str_of_float out countries psps
                 (mkMetric "converted" "Converted Count" "Converted Count"
                           "number" "line") "line" = Ok converted_chart.
Proof.
  intros Hcan.
  destruct (canonical_enriched_columns str_to_float df Hcan)
    as [out [Hok [Hc [Hp [Hw [Hpb [Hcv Hpo]]]]]]].
  destruct (create_chart_traces Set3 str_of_float out 0 1 2 3
              (mkMetric "press_buy" "Press Buy Count" "Press Buy Count"
                        "number" "line")
              Hc Hp Hw Hpb ltac:(discriminate) countries psps "line"
              ltac:(discriminate)) as [fig1 [H1 _]].
  destruct (create_chart_traces Set3 str_of_float out 0 1 2 4
              (mkMetric "converted" "Converted Count" "Converted Count"
                        "number" "line")
              Hc Hp Hw Hcv ltac:(discriminate) countries psps "line"
              ltac:(discriminate)) as [fig2 [H2 _]].
  exists out, fig1, fig2.
  rewrite (canonical_process_data str_to_float df Hcan), Hok.
  split; [reflexivity|]. split; [|split; assumption].
  now apply (default_filters_keep_all out 0 1).
Qed.

Lemma enriched_table_filters_and_charts_witness :
  canonical scenario_two_psps /\
  exists out,
    process_data read_integer scenario_two_psps = Enriched out /\
    apply_filters out (default_countries out) (default_psps out) [] = Ok out.
Proof.
  assert (Hcan : canonical scenario_two_psps)
    by (split; [reflexivity | left; reflexivity]).
  split; [exact Hcan|].
  destruct (enriched_table_filters_and_charts read_integer no_number_text
              scenario_two_psps [S_ "US"] [S_ "PayPal"] Hcan)
    as [out [_ [_ [H [Hf _]]]]].
  exists out. split; [exact H | exact Hf].
Defined.

(** ** The summary of a country *)








Section Summary.

Variable country_data : DataFrame.
Variables ip ib iv ir : nat.
Hypothesis Hpsp : positions "psp" (columns country_data) = [ip].
Hypothesis Hpb : positions "press_buy" (columns country_data) = [ib].
Hypothesis Hcv : positions "converted" (columns country_data) = [iv].
Hypothesis Hcr : positions "conversion_rate" (columns country_data) = [ir].

Lemma country_stats_closed :
  country_stats country_data =
  Ok (map (fun k =>
             let rows := group_rows ip ip (data country_data) k in
             mkStat (fst k)
                    (fsum (map (num_at ib) rows))
                    (fsum (map (num_at iv) rows))
                    (fmean (map (num_at ir) rows)))
          (group_keys ip ip (data country_data))).
Proof.
  unfold country_stats, grouper. now rewrite Hpsp, Hpb, Hcv, Hcr.
Qed.

(** X18: the summary of a country has one entry for each PSP that occurs
    in its rows: no two entries have the same PSP, the entries are in
    ascending order of the PSP, every row with a PSP has the entry of its
    PSP, and rows without a PSP have none. *)
Theorem country_stats_one_entry_per_psp :
  exists stats,
    country_stats country_data = Ok stats /\
    ForallOrdPairs (fun a b => cell_eqb (stat_psp a) (stat_psp b) = false)
                   stats /\
    StronglySorted (fun a b => cell_leb (stat_psp a) (stat_psp b) = true)
                   stats /\
    (forall row, In row (data country_data) ->
       cell_isna (nth ip row nan_cell) = false ->
       exists s, In s stats /\
                 cell_eqb (stat_psp s) (nth ip row nan_cell) = true) /\
    (forall s, In s stats -> cell_isna (stat_psp s) = false).
Proof.
  eexists. split; [apply country_stats_closed|].
  set (ks := group_keys ip ip (data country_data)).
  assert (Hks : forall k, In k ks -> snd k = fst k /\ cell_isna (fst k) = false).
  { intros k Hk. apply group_keys_In in Hk. destruct Hk as [Hna [row [_ <-]]].
    split; [reflexivity|]. unfold key_isna, row_key in Hna. cbn [fst snd] in *.
    now rewrite orb_diag in Hna. }
  assert (Heq : forall a b, In a ks -> In b ks ->
                            key_eqb a b = cell_eqb (fst a) (fst b)).
  { intros a b Ha Hb. unfold key_eqb.
    destruct (Hks a Ha) as [-> _], (Hks b Hb) as [-> _]. apply andb_diag. }
  assert (Hleb : forall a b, In a ks -> In b ks ->
                             key_leb a b = cell_leb (fst a) (fst b)).
  { intros a b Ha Hb. unfold key_leb.
    destruct (Hks a Ha) as [-> _], (Hks b Hb) as [-> _].
    now destruct (cell_eqb (fst a) (fst b)). }
  pose proof (group_keys_distinct ip ip (data country_data)) as Hd.
  pose proof (group_keys_sorted ip ip (data country_data)) as Hs.
  fold ks in Hd, Hs. unfold distinct_keys in Hd.
  split; [|split; [|split]].
  - clear Hs. induction Hd as [|a l Ha Hl IH]; cbn [map]; constructor.
    + apply Forall_map. rewrite Forall_forall in *. intros b Hb.
      cbn [stat_psp]. rewrite <- Heq; [now apply Ha | now left | now right].
    + apply IH; intros; [apply Hks | apply Heq | apply Hleb]; now try right.
  - clear Hd. induction Hs as [|a l Hl IH Ha]; cbn [map]; constructor.
    + apply IH; intros; [apply Hks | apply Heq | apply Hleb]; now try right.
    + apply Forall_map. rewrite Forall_forall in *. intros b Hb.
      cbn [stat_psp]. rewrite <- Hleb; [now apply Ha | now left | now right].
  - intros row Hin Hna.
    destruct (group_keys_complete ip ip (data country_data) row Hin)
      as [k [Hk He]].
    + unfold key_isna, row_key. cbn [fst snd]. now rewrite Hna.
    + eexists. split; [apply in_map; exact Hk|]. cbn [stat_psp].
      unfold key_eqb, row_key in He. cbn [fst snd] in He.
      apply andb_true_iff in He. tauto.
  - intros s Hs'. apply in_map_iff in Hs'. destruct Hs' as [k [<- Hk]].
    cbn [stat_psp]. now apply Hks.
Qed.


End Summary.

Lemma country_stats_one_entry_per_psp_witness :
  exists stats,
    country_stats enriched_two_psps = Ok stats /\ List.length stats = 2%nat.
Proof.
  destruct (country_stats_one_entry_per_psp enriched_two_psps 1 3 4 5
              eq_refl eq_refl eq_refl eq_refl) as [stats [H _]].
  exists stats. split; [exact H|].
  vm_compute in H. injection H as <-. reflexivity.
Defined.

